(** * zenvalidate: environment resolution, the protective proxy and the
      client bootstrap script

    A shallow embedding of [packages/zenvalidate/src/core.ts],
    [client-inject.ts], the [runtime] object and the guards [core.ts]
    imports, followed by the properties the specification states about them
    and by further properties read off the code: reads on both sides,
    enumeration, the outcomes of the entry point, the default report, the
    bootstrap script, the runtime getters and the coercions.

    Conventions of the embedding.
    - A JavaScript value is a [value]; the scalars an environment holds are
      covered, together with string arrays (the retained prefix list).  A
      number is an integer that JavaScript prints in plain decimal.
    - An ordinary object is the ordered list of its own properties with their
      attributes ([JsObj]); a plain record such as [process.env] is an ordered
      list of key/value pairs ([PlainObj]).  Variable names are taken not to be
      canonical array indices, so own keys enumerate in insertion order, nor
      names that [Object.prototype] defines, so [k in o] and [o[k]] see own
      properties only.
    - A [Map] is a [gmap].
    - Ambient state ([window], [process.env]) is an explicit [World]; every
      [runtime] getter is a function of the world it is evaluated in.
    - A call that may throw returns a [completion]; the effects the
      statements speak of (a raw value read, a validator or a transform
      called, a console message) are recorded as [Event]s.
    - The handler of the protective proxy is embedded trap by trap, and the
      operations of the language on the proxy are built from the traps.
    - [validators.ts] is not among the sources at hand: validators with
      default variants are modelled from the specification, in the module
      [Validators]; everywhere else a validator is any [parse] function with
      optional metadata. *)

From Stdlib Require Import ZArith Ascii String List Bool DecimalString.
From Stdlib Require DecimalPos.
From stdpp Require Import base option list strings gmap.

Local Open Scope Z_scope.

(** ** JavaScript values and objects *)

Module Js.

Inductive value : Type :=
  | VUndefined
  | VNull
  | VBool (b : bool)
  | VNum (n : Z)
  | VStr (s : string)
  | VStrArr (l : list string).

#[global] Instance value_eq_dec : EqDecision value.
Proof. solve_decision. Defined.

(** [v !== undefined] *)
Definition is_defined (v : value) : bool :=
  match v with VUndefined => false | _ => true end.

(** [a ?? b] *)
Definition nullish (a b : value) : value :=
  match a with VUndefined | VNull => b | _ => a end.

(** Property keys: strings and symbols.  The two well-known symbols the
    proxy lists are kept apart from symbols made by the program. *)
Inductive PropKey : Type :=
  | PStr (s : string)
  | PSymToStringTag
  | PSymIterator
  | PSym (description : string).

#[global] Instance PropKey_eq_dec : EqDecision PropKey.
Proof. solve_decision. Defined.

(** [String(prop)] *)
Definition String_of (p : PropKey) : string :=
  match p with
  | PStr s => s
  | PSymToStringTag => "Symbol(Symbol.toStringTag)"
  | PSymIterator => "Symbol(Symbol.iterator)"
  | PSym d => "Symbol(" +:+ d +:+ ")"
  end.

Definition mem_string (s : string) (l : list string) : bool :=
  existsb (String.eqb s) l.

(** Plain records: [process.env], [window.__ZENV_CLIENT__]. *)
Definition PlainObj : Type := list (string * value).

Fixpoint plain_lookup (o : PlainObj) (k : string) : option value :=
  match o with
  | [] => None
  | (k', v) :: o' => if String.eqb k' k then Some v else plain_lookup o' k
  end.

(** [o[k]] *)
Definition plain_get (o : PlainObj) (k : string) : value :=
  default VUndefined (plain_lookup o k).

(** [k in o] *)
Definition plain_in (o : PlainObj) (k : string) : bool :=
  bool_decide (is_Some (plain_lookup o k)).

(** [o[k] = v] on a record built by assignment only. *)
Fixpoint plain_assign (o : PlainObj) (k : string) (v : value) : PlainObj :=
  match o with
  | [] => [(k, v)]
  | (k', v') :: o' =>
      if String.eqb k' k then (k', v) :: o' else (k', v') :: plain_assign o' k v
  end.

(** Own properties with their attributes. *)
Record PropDesc : Type := mkDesc {
  pd_value : value;
  pd_enumerable : bool;
  pd_writable : bool;
  pd_configurable : bool
}.

Definition JsObj : Type := list (string * PropDesc).

Fixpoint own_lookup (o : JsObj) (k : string) : option PropDesc :=
  match o with
  | [] => None
  | (k', d) :: o' => if String.eqb k' k then Some d else own_lookup o' k
  end.

(** [prop in target].  No symbol-keyed property exists on the objects of
    this development. *)
Definition has_property (o : JsObj) (p : PropKey) : bool :=
  match p with
  | PStr k => bool_decide (is_Some (own_lookup o k))
  | _ => false
  end.

(** [target[prop]] on an ordinary object holding data properties only. *)
Definition get_property (o : JsObj) (p : PropKey) : value :=
  match p with
  | PStr k =>
      match own_lookup o k with
      | Some d => pd_value d
      | None => VUndefined
      end
  | _ => VUndefined
  end.

(** [o[k] = v] on a fresh object literal whose properties were all created
    by assignment: an existing key keeps its place, a new one goes last. *)
Fixpoint assign (o : JsObj) (k : string) (v : value) : JsObj :=
  match o with
  | [] => [(k, mkDesc v true true true)]
  | (k', d) :: o' =>
      if String.eqb k' k
      then (k', mkDesc v (pd_enumerable d) (pd_writable d) (pd_configurable d)) :: o'
      else (k', d) :: assign o' k v
  end.

(** A descriptor as written in the source: absent fields are [None]. *)
Record DescInit : Type := mkInit {
  di_value : value;
  di_enumerable : option bool;
  di_writable : option bool;
  di_configurable : option bool
}.

(** [Object.defineProperty(o, k, init)] for a data descriptor, on a key
    that is absent (missing attributes default to [false]) or present and
    configurable (missing attributes keep their value). *)
Fixpoint defineProperty (o : JsObj) (k : string) (i : DescInit) : JsObj :=
  match o with
  | [] => [(k, mkDesc (di_value i) (default false (di_enumerable i))
                      (default false (di_writable i)) (default false (di_configurable i)))]
  | (k', d) :: o' =>
      if String.eqb k' k
      then (k', mkDesc (di_value i) (default (pd_enumerable d) (di_enumerable i))
                       (default (pd_writable d) (di_writable i))
                       (default (pd_configurable d) (di_configurable i))) :: o'
      else (k', d) :: defineProperty o' k i
  end.

(** [Object.defineProperties]: one [defineProperty] per entry, in order. *)
Definition defineProperties (o : JsObj) (ps : list (string * DescInit)) : JsObj :=
  fold_left (fun acc kd => defineProperty acc (fst kd) (snd kd)) ps o.

(** [Reflect.ownKeys] (the objects here have string keys only) and
    [Reflect.getOwnPropertyDescriptor]. *)
Definition ownKeys (o : JsObj) : list string := map fst o.

Definition getOwnPropertyDescriptor (o : JsObj) (p : PropKey) : option PropDesc :=
  match p with
  | PStr k => own_lookup o k
  | _ => None
  end.

(** Errors the code raises. *)
Inductive JsError : Type :=
  | ReferenceError (msg : string)
  | TypeError (msg : string)
  | PlainError (msg : string).

Definition error_message (e : JsError) : string :=
  match e with ReferenceError m | TypeError m | PlainError m => m end.

Inductive completion (A : Type) : Type :=
  | Return (a : A)
  | Throw (e : JsError).
Arguments Return {A} a.
Arguments Throw {A} e.

(** [hay.includes(needle)] *)
Fixpoint includes (hay needle : string) : bool :=
  String.prefix needle hay ||
  match hay with
  | EmptyString => false
  | String _ rest => includes rest needle
  end.

End Js.
Export Js.

(** ** The [runtime] object: getters over the ambient world *)

Module Runtime.

(** [window]: [None] when [typeof window === "undefined"], otherwise the
    bootstrap object [window.__ZENV_CLIENT__] if one was injected.
    [process]: [None] when [typeof process === "undefined"], otherwise
    [process.env]. *)
Record World : Type := mkWorld {
  window : option (option PlainObj);
  process : option PlainObj
}.

Definition isServer (w : World) : bool :=
  bool_decide (window w = None) && bool_decide (is_Some (process w)).

Definition isClient (w : World) : bool := bool_decide (is_Some (window w)).

Definition isNode (w : World) : bool := bool_decide (is_Some (process w)).

Definition isBrowser (w : World) : bool := bool_decide (is_Some (window w)).

Definition nodeEnv (w : World) : string :=
  match process w with
  | Some env =>
      match plain_get env "NODE_ENV" with
      | VStr s => s
      | _ => "production"
      end
  | None => "production"
  end.

Definition isDevelopment (w : World) : bool := String.eqb (nodeEnv w) "development".
Definition isProduction (w : World) : bool := String.eqb (nodeEnv w) "production".
Definition isTest (w : World) : bool := String.eqb (nodeEnv w) "test".

Definition env (w : World) : PlainObj :=
  match (if isClient w then window w else None) with
  | Some (Some injected) => injected
  | _ =>
      match process w with
      | Some e => e
      | None => []
      end
  end.

Inductive ErrorBehavior : Type := OnErrorThrow | OnErrorExit | OnErrorReturn.

Inductive ClientAccessError : Type := AccessThrow | AccessWarn | AccessIgnore.

Definition defaultErrorBehavior (w : World) : ErrorBehavior :=
  if isNode w then OnErrorExit else OnErrorThrow.

Definition defaultClientAccessError (w : World) : ClientAccessError :=
  if isDevelopment w then AccessWarn else AccessIgnore.

End Runtime.
Export Runtime.

(** ** Validators, metadata, options and the guards of [types/guards] *)

Module Types.

Record ZodIssue : Type := mkIssue {
  code : string;
  message : string;
  path : list string;
  received : option string
}.

Record ZodError : Type := mkZodError { issues : list ZodIssue }.

(** What a [catch] clause can receive besides a [ZodError] ([isZodError]
    tells the two apart). *)
Inductive Thrown : Type :=
  | ThrownError (e : JsError)
  | ThrownValue (v : value).

Inductive Caught : Type :=
  | CaughtZod (e : ZodError)
  | CaughtOther (t : Thrown).

(** Outcome of [schema.parse(value)]. *)
Inductive ParseOutcome : Type :=
  | ParseOk (v : value)
  | ParseFail (c : Caught).

Record ClientConfig : Type := mkClient {
  expose : bool;
  transform : option (value -> value);
  client_default : value;
  client_devDefault : value
}.

(** The metadata attached to a schema.  [rest] stands for the option fields
    the core copies without reading (default variants, description,
    example). *)
Record SchemaMetadata : Type := mkMeta {
  rest : PlainObj;
  client : option ClientConfig;
  autoExposed : option bool;
  serverOnly : option bool
}.

(** A leaf validator: its [parse] (which may consult the runtime) and the
    metadata [getMetadata] finds for it. *)
Record Validator : Type := mkValidator {
  parse : World -> value -> ParseOutcome;
  getMetadata : option SchemaMetadata
}.

(** An entry of the specification object: a validator, or anything
    [isZodSchema] rejects. *)
Inductive SpecEntry : Type :=
  | NotSchema
  | Schema (s : Validator).

(** [Object.entries(specs)] *)
Definition ZenvSpec : Type := list (string * SpecEntry).

(** A custom reporter, as the messages it writes. *)
Definition Reporter : Type := list ZodError -> PlainObj -> list string.

Record ZenvOptions : Type := mkOptions {
  reporter : option Reporter;
  onError : option ErrorBehavior;
  opt_env : option PlainObj;
  strict : option bool;
  clientSafePrefixes : option (list string);
  serverOnlyPrefixes : option (list string);
  onClientAccessError : option ClientAccessError
}.

Definition no_options : ZenvOptions :=
  mkOptions None None None None None None None.

(** [prefixes.some((prefix) => str.startsWith(prefix))] *)
Definition startsWithAny (str : string) (prefixes : list string) : bool :=
  existsb (fun prefix => String.prefix prefix str) prefixes.

Definition string_of_Z (n : Z) : string := NilZero.string_of_int (Z.to_int n).

Definition join (sep : string) (l : list string) : string :=
  match l with
  | [] => ""
  | x :: xs => fold_left (fun acc y => acc +:+ sep +:+ y) xs x
  end.

(** [getErrorMessage], on what the core passes to it: something thrown
    that is not a [ZodError]. *)
Definition getErrorMessage (t : Thrown) : string :=
  match t with
  | ThrownError e => error_message e
  | ThrownValue (VStr s) => s
  | ThrownValue VNull => "null"
  | ThrownValue VUndefined => "undefined"
  | ThrownValue (VNum n) => string_of_Z n
  | ThrownValue (VBool b) => if b then "true" else "false"
  | ThrownValue _ => "Unknown error"
  end.

End Types.
Export Types.

(** ** [core.ts] *)

Module Core.

(** Observable effects, in the order they happen. *)
Inductive Event : Type :=
  | EvReadRaw (key : string)
  | EvParse (key : string) (input : value)
  | EvTransform (key : string) (input : value)
  | EvConsoleWarn (msg : string)
  | EvConsoleError (msg : string)
  | EvReporter (errors : list ZodError).

Definition dquote : string := String "034"%char EmptyString.
Definition newline : string := String "010"%char EmptyString.

(** *** addEnvAccessors *)

Definition accessor (b : bool) : DescInit := mkInit (VBool b) (Some false) None None.

(** Lines 28-36: the mode string the accessors are computed from. *)
Definition accessor_nodeEnv (w : World) (env : JsObj) (rawEnv : PlainObj) : string :=
  let envNodeEnv := get_property env (PStr "NODE_ENV") in
  let rawEnvNodeEnv := plain_get rawEnv "NODE_ENV" in
  let nodeEnvValue := nullish envNodeEnv (nullish rawEnvNodeEnv (VStr (nodeEnv w))) in
  match nodeEnvValue with
  | VStr s => s
  | VNum n => string_of_Z n
  | _ => nodeEnv w
  end.

Definition addEnvAccessors (w : World) (env : JsObj) (rawEnv : PlainObj) : JsObj :=
  let nodeEnv := accessor_nodeEnv w env rawEnv in
  let isProd := String.eqb nodeEnv "production" in
  defineProperties env
    [ ("isDevelopment", accessor (String.eqb nodeEnv "development"));
      ("isDev", accessor (String.eqb nodeEnv "development"));
      ("isProduction", accessor isProd);
      ("isProd", accessor isProd);
      ("isTest", accessor (String.eqb nodeEnv "test")) ].

(** *** createProtectiveProxy *)

(** The proxy: its target and what the handler closes over.  [strict] and
    [onClientAccessError] are destructured once, when the proxy is made. *)
Record Proxy : Type := mkProxy {
  target : JsObj;
  px_metadata : gmap string SchemaMetadata;
  px_strict : bool;
  px_onClientAccessError : ClientAccessError;
  px_rawEnv : PlainObj
}.

Definition createProtectiveProxy (w : World) (env : JsObj)
    (metadata : gmap string SchemaMetadata) (options : ZenvOptions) (rawEnv : PlainObj) : Proxy :=
  mkProxy env metadata
    (default true (strict options))
    (default (defaultClientAccessError w) (onClientAccessError options))
    rawEnv.

Definition inspectables : list PropKey :=
  [ PStr "length"; PStr "inspect"; PStr "hasOwnProperty"; PStr "toJSON";
    PSymToStringTag; PSymIterator; PStr "asymmetricMatch"; PStr "nodeType";
    PStr "$$typeof"; PStr "then"; PStr "__esModule"; PStr "__clientSafePrefixes__" ].

Definition accessorProps : list string :=
  [ "isDevelopment"; "isDev"; "isProduction"; "isProd"; "isTest" ].

(** [!isServerOnly && (meta?.client?.expose ?? meta?.autoExposed)] *)
Definition isExposed (meta : option SchemaMetadata) : bool :=
  let isServerOnly := default false (meta ≫= serverOnly) in
  negb isServerOnly &&
  match meta ≫= client with
  | Some c => expose c
  | None => default false (meta ≫= autoExposed)
  end.

(** The value an exposed front-end read is about to return, once the
    client-specific defaults have been considered (lines 126-141). *)
Definition client_value (w : World) (px : Proxy) (prop : PropKey) : value :=
  let propName := String_of prop in
  let meta := px_metadata px !! propName in
  let value := if has_property (target px) prop then get_property (target px) prop else VUndefined in
  let wasExplicitlySet := plain_in (px_rawEnv px) propName in
  match negb wasExplicitlySet, meta ≫= client with
  | true, Some c =>
      if isDevelopment w && is_defined (client_devDefault c) then client_devDefault c
      else if is_defined (client_default c) then client_default c
      else value
  | _, _ => value
  end.

Definition no_events : list Event := [].

(** The [get] trap. *)
Definition trap_get (w : World) (px : Proxy) (prop : PropKey) : completion value * list Event :=
  if bool_decide (prop ∈ inspectables) then (Return (get_property (target px) prop), no_events)
  else
    let propName := String_of prop in
    let propExists := has_property (target px) prop in
    if mem_string propName accessorProps then (Return (get_property (target px) prop), no_events)
    else if negb propExists && px_strict px then
      (Throw (ReferenceError ("[zenv] Environment variable not found: " +:+ propName)), no_events)
    else if isClient w then
      let meta := px_metadata px !! propName in
      if negb (isExposed meta) then
        match px_onClientAccessError px with
        | AccessThrow =>
            (Throw (PlainError ("Cannot access server-only environment variable '" +:+ propName
                                 +:+ "' on client")), no_events)
        | AccessWarn =>
            if isDevelopment w
            then (Return VUndefined,
                  [EvConsoleWarn ("[zenv] Warning: Attempted to access server-only variable "
                                   +:+ dquote +:+ propName +:+ dquote +:+ " on client")])
            else (Return VUndefined, no_events)
        | AccessIgnore => (Return VUndefined, no_events)
        end
      else
        let value := client_value w px prop in
        match is_defined value, (meta ≫= client) ≫= transform with
        | true, Some f => (Return (f value), [EvTransform propName value])
        | _, _ => (Return value, no_events)
        end
    else (Return (get_property (target px) prop), no_events).

(** The [set], [defineProperty], [deleteProperty], [ownKeys] and
    [getOwnPropertyDescriptor] traps. *)
Definition trap_set (px : Proxy) (prop : PropKey) : completion bool :=
  Throw (TypeError ("[zenv] Attempt to mutate environment value: " +:+ String_of prop)).

Definition trap_defineProperty (px : Proxy) (prop : PropKey) : completion bool :=
  Throw (TypeError ("[zenv] Attempt to define property on environment: " +:+ String_of prop)).

Definition trap_deleteProperty (px : Proxy) (prop : PropKey) : bool := true.

Definition trap_ownKeys (px : Proxy) : list string := ownKeys (target px).

Definition trap_getOwnPropertyDescriptor (px : Proxy) (prop : PropKey) : option PropDesc :=
  getOwnPropertyDescriptor (target px) prop.

(** What the language does with the traps (ECMA-262, internal methods of
    proxy objects).  A write [env[p] = v] and [Object.defineProperty(env, p,
    d)] run the trap, which throws.  A read [env[p]] runs the trap; the
    language checks the answer only for non-configurable, non-writable own
    properties of the target, and on an environment the entry point built
    those are the accessor names and the prefix field, which the trap answers
    from the target, so the check is left out.  [delete env[p]] runs the trap
    and, when the trap answers [true], rejects that answer with a [TypeError]
    if the target owns [p] as a non-configurable property.  No trap changes
    the target, so each operation returns the proxy it leaves behind. *)
Definition Proxy_get (w : World) (px : Proxy) (prop : PropKey) : completion value :=
  fst (trap_get w px prop).

Definition Proxy_set (px : Proxy) (prop : PropKey) (v : value) : completion bool * Proxy :=
  (trap_set px prop, px).

Definition Proxy_defineProperty (px : Proxy) (prop : PropKey) (d : DescInit)
  : completion bool * Proxy :=
  (trap_defineProperty px prop, px).

Definition Proxy_delete (px : Proxy) (prop : PropKey) : completion bool * Proxy :=
  if trap_deleteProperty px prop then
    match getOwnPropertyDescriptor (target px) prop with
    | None => (Return true, px)
    | Some d =>
        if pd_configurable d then (Return true, px)
        else (Throw (TypeError ("'deleteProperty' on proxy: trap returned truish for property '"
                                 +:+ String_of prop
                                 +:+ "' which is non-configurable in the proxy target")), px)
    end
  else (Return false, px).

(** [Object.keys(env)] through the [ownKeys] and [getOwnPropertyDescriptor]
    traps. *)
Definition Proxy_keys (px : Proxy) : list string :=
  filter (fun k =>
            default false (pd_enumerable <$> trap_getOwnPropertyDescriptor px (PStr k)) = true)
         (trap_ownKeys px).

(** *** reportErrors *)

Definition isMissing (issue : ZodIssue) : bool :=
  String.eqb (code issue) "invalid_type" && bool_decide (received issue = Some "undefined").

Definition report_line (issue : ZodIssue) : string :=
  "    " +:+ join "." (path issue) +:+ ": " +:+ message issue.

Definition reportErrors (w : World) (errors : list ZodError) (onError : ErrorBehavior)
  : list Event :=
  let all := flat_map issues errors in
  let missingVars := map report_line (List.filter isMissing all) in
  let invalidVars := map report_line (List.filter (fun i => negb (isMissing i)) all) in
  let output :=
    join newline
      (["================================"]
       ++ (if (0 <? length invalidVars)%nat
           then " Invalid environment variables:" :: invalidVars else [])
       ++ (if (0 <? length missingVars)%nat
           then " Missing environment variables:" :: missingVars else [])
       ++ ["================================"]) in
  EvConsoleError output ::
  match onError with
  | OnErrorExit =>
      if isNode w then [EvConsoleError (newline +:+ " Exiting with error code 1")] else []
  | _ => []
  end.

(** *** validateSingleSpec *)

(** [{ ...meta }] *)
Definition spread (meta : option SchemaMetadata) : SchemaMetadata :=
  default (mkMeta [] None None None) meta.

(** Stores the metadata of [key], then parses: the pair is the metadata map
    after the call and what [schema.parse(value)] did. *)
Definition validateSingleSpec (w : World) (key : string) (schema : Validator) (value : value)
    (metadata : gmap string SchemaMetadata) (options : ZenvOptions)
  : gmap string SchemaMetadata * ParseOutcome :=
  let meta := getMetadata schema in
  let clientSafePrefixes := default [] (clientSafePrefixes options) in
  let serverOnlyPrefixes := default [] (serverOnlyPrefixes options) in
  let isServerOnly :=
    (0 <? length serverOnlyPrefixes)%nat && startsWithAny key serverOnlyPrefixes in
  let isAutoExposed :=
    negb isServerOnly && (0 <? length clientSafePrefixes)%nat
    && startsWithAny key clientSafePrefixes in
  let finalMeta :=
    mkMeta (rest (spread meta)) (client (spread meta)) (Some isAutoExposed) (Some isServerOnly) in
  let finalMeta :=
    match isServerOnly, client finalMeta with
    | true, Some c =>
        mkMeta (rest finalMeta)
               (Some (mkClient false (transform c) (client_default c) (client_devDefault c)))
               (autoExposed finalMeta) (serverOnly finalMeta)
    | _, _ => finalMeta
    end in
  (<[key := finalMeta]> metadata, parse schema w value).

(** *** validateSpecs *)

Record Resolution : Type := mkResolution {
  result : JsObj;
  metadata : gmap string SchemaMetadata;
  errors : list ZodError;
  events : list Event
}.

(** The front-end test of lines 294-301: [shouldSkip]. *)
Definition shouldSkip (w : World) (options : ZenvOptions) (key : string) (validator : Validator)
  : bool :=
  if isClient w then
    let clientSafePrefixes := default [] (clientSafePrefixes options) in
    let meta := getMetadata validator in
    let isAutoExposed :=
      (0 <? length clientSafePrefixes)%nat && startsWithAny key clientSafePrefixes in
    let isExplicitlyExposed :=
      match meta ≫= client with
      | Some c => expose c
      | None => false
      end in
    negb isAutoExposed && negb isExplicitlyExposed
  else false.

(** The body of the [try]: the state it leaves and what it threw, if
    anything ([continue] and normal completion both leave [None]). *)
Definition try_block (w : World) (env : PlainObj) (options : ZenvOptions)
    (st : Resolution) (key : string) (validator : SpecEntry) : Resolution * option Caught :=
  match validator with
  | NotSchema =>
      (st, Some (CaughtOther (ThrownError (PlainError
             ("Invalid validator for " +:+ dquote +:+ key +:+ dquote +:+ ": must be a Zod schema")))))
  | Schema schema =>
      if shouldSkip w options key schema then
        let meta := spread (getMetadata schema) in
        (mkResolution (result st)
           (<[key := mkMeta (rest meta) (client meta) (autoExposed meta) (Some true)]> (metadata st))
           (errors st) (events st), None)
      else
        let rawValue := plain_get env key in
        let '(metadata', outcome) :=
          validateSingleSpec w key schema rawValue (metadata st) options in
        let events' := events st ++ [EvReadRaw key; EvParse key rawValue] in
        match outcome with
        | ParseOk v => (mkResolution (assign (result st) key v) metadata' (errors st) events', None)
        | ParseFail error => (mkResolution (result st) metadata' (errors st) events', Some error)
        end
  end.

(** The [catch] clause: the record it builds, and the push. *)
Definition failure_record (key : string) (error : Caught) : ZodError :=
  match error with
  | CaughtZod e =>
      mkZodError
        (map (fun issue =>
                mkIssue (code issue) (message issue)
                  (if (length (path issue) =? 0)%nat then [key] else key :: path issue)
                  (received issue))
             (issues e))
  | CaughtOther t => mkZodError [mkIssue "custom" (getErrorMessage t) [key] None]
  end.

Definition catch_block (key : string) (st : Resolution) (error : Caught) : Resolution :=
  mkResolution (result st) (metadata st) (errors st ++ [failure_record key error]) (events st).

(** One iteration of the [for] loop. *)
Definition validateSpecs_step (w : World) (env : PlainObj) (options : ZenvOptions)
    (st : Resolution) (entry : string * SpecEntry) : Resolution :=
  let '(key, validator) := entry in
  match try_block w env options st key validator with
  | (st', None) => st'
  | (st', Some error) => catch_block key st' error
  end.

Definition validateSpecs (w : World) (specs : ZenvSpec) (env : PlainObj) (options : ZenvOptions)
  : Resolution :=
  fold_left (validateSpecs_step w env options) specs (mkResolution [] ∅ [] []).

(** *** zenv *)

Inductive ZenvOutcome : Type :=
  | ZenvReturn (env : Proxy)
  | ZenvThrow (message : string) (zodErrors : list ZodError)
  | ZenvExit (status : Z).

(** Lines 434-441 and 451-458. *)
Definition attachClientSafePrefixes (options : ZenvOptions) (envWithAccessors : JsObj) : JsObj :=
  match clientSafePrefixes options with
  | Some prefixes =>
      defineProperty envWithAccessors "__clientSafePrefixes__"
        (mkInit (VStrArr prefixes) (Some false) (Some false) (Some false))
  | None => envWithAccessors
  end.

(** A configured reporter is called with the failures and the source; it is
    taken to return. *)
Definition zenv (w : World) (specs : ZenvSpec) (options : ZenvOptions)
  : ZenvOutcome * list Event :=
  let onError := default (defaultErrorBehavior w) (onError options) in
  let env := default (Runtime.env w) (opt_env options) in
  let r := validateSpecs w specs env options in
  let wrapped :=
    createProtectiveProxy w
      (attachClientSafePrefixes options (addEnvAccessors w (result r) env))
      (metadata r) options env in
  if (0 <? length (errors r))%nat then
    let reported :=
      match reporter options with
      | Some f => EvReporter (errors r) :: map EvConsoleError (f (errors r) env)
      | None => reportErrors w (errors r) onError
      end in
    match onError with
    | OnErrorThrow => (ZenvThrow "Environment validation failed" (errors r), events r ++ reported)
    | OnErrorExit =>
        if isNode w then (ZenvExit 1, events r ++ reported)
        else (ZenvReturn wrapped, events r ++ reported)
    | OnErrorReturn => (ZenvReturn wrapped, events r ++ reported)
    end
  else (ZenvReturn wrapped, events r).

End Core.
Export Core.

(** ** [client-inject.ts] *)

Module ClientInject.

(** *** JSON.stringify on the values of the model *)

Definition hex_digit (n : nat) : string :=
  String (nth n (list_ascii_of_string "0123456789abcdef") "0"%char) EmptyString.

Definition json_char (c : ascii) : string :=
  let n := nat_of_ascii c in
  if (n =? 34)%nat then "\" +:+ dquote
  else if (n =? 92)%nat then "\\"
  else if (n =? 8)%nat then "\b"
  else if (n =? 12)%nat then "\f"
  else if (n =? 10)%nat then "\n"
  else if (n =? 13)%nat then "\r"
  else if (n =? 9)%nat then "\t"
  else if (n <? 32)%nat then "\u00" +:+ hex_digit (n / 16) +:+ hex_digit (n mod 16)
  else String c EmptyString.

Fixpoint json_chars (s : string) : string :=
  match s with
  | EmptyString => EmptyString
  | String c rest => json_char c +:+ json_chars rest
  end.

Definition json_string (s : string) : string := dquote +:+ json_chars s +:+ dquote.

(** [None]: the property is left out. *)
Definition json_value (v : value) : option string :=
  match v with
  | VUndefined => None
  | VNull => Some "null"
  | VBool b => Some (if b then "true" else "false")
  | VNum n => Some (string_of_Z n)
  | VStr s => Some (json_string s)
  | VStrArr l => Some ("[" +:+ join "," (map json_string l) +:+ "]")
  end.

Definition JSON_stringify (o : PlainObj) : string :=
  "{" +:+ join "," (omap (fun kv => (fun s => json_string (fst kv) +:+ ":" +:+ s) <$> json_value (snd kv)) o)
      +:+ "}".

(** *** The replacement [/<\/script>/gi] *)

Definition lower (c : ascii) : ascii :=
  let n := nat_of_ascii c in
  if ((65 <=? n) && (n <=? 90))%nat then ascii_of_nat (n + 32) else c.

(** [pat], written in lower case, matches at the start of [s] whatever the
    letter case of [s]. *)
Fixpoint prefix_ci (pat s : string) : bool :=
  match pat, s with
  | EmptyString, _ => true
  | String p pat', String c s' => Ascii.eqb (lower c) p && prefix_ci pat' s'
  | String _ _, EmptyString => false
  end.

Definition close_tag : string := "</script>".

Fixpoint string_take (n : nat) (s : string) : string :=
  match n, s with
  | O, _ => EmptyString
  | S n', String c s' => String c (string_take n' s')
  | S _, EmptyString => EmptyString
  end.

Fixpoint string_drop (n : nat) (s : string) : string :=
  match n, s with
  | O, _ => s
  | S n', String _ s' => string_drop n' s'
  | S _, EmptyString => EmptyString
  end.

(** [match.replace("/", "\\/")]: the first slash gets a backslash. *)
Fixpoint replace_first_slash (m : string) : string :=
  match m with
  | EmptyString => EmptyString
  | String c rest =>
      if Ascii.eqb c "/"%char then "\/" +:+ rest else String c (replace_first_slash rest)
  end.

(** The global replace scans left to right and resumes after each match;
    [fuel] bounds the number of steps by the length of the input. *)
Fixpoint escape_close_tags_from (fuel : nat) (s : string) : string :=
  match fuel with
  | O => s
  | S fuel' =>
      match s with
      | EmptyString => EmptyString
      | String c rest =>
          if prefix_ci close_tag s
          then replace_first_slash (string_take (String.length close_tag) s)
               +:+ escape_close_tags_from fuel' (string_drop (String.length close_tag) s)
          else String c (escape_close_tags_from fuel' rest)
      end
  end.

Definition escape_close_tags (jsonStr : string) : string :=
  escape_close_tags_from (String.length jsonStr) jsonStr.

(** A closing script tag, in any letter case, somewhere in [s]. *)
Fixpoint has_close_tag (s : string) : bool :=
  prefix_ci close_tag s ||
  match s with
  | EmptyString => false
  | String _ rest => has_close_tag rest
  end.

(** *** getClientEnvScript *)

(** What [prefixes] can be at line 52. *)
Inductive Prefixes : Type :=
  | PrefixArray (l : list string)
  | PrefixString (s : string)
  | PrefixOther.

(** [clientSafePrefixes ?? env.__clientSafePrefixes__ ?? []] *)
Definition prefixes_of (w : World) (env : Proxy) (clientSafePrefixes : option (list string))
  : completion Prefixes :=
  match clientSafePrefixes with
  | Some l => Return (PrefixArray l)
  | None =>
      match Proxy_get w env (PStr "__clientSafePrefixes__") with
      | Throw e => Throw e
      | Return (VStrArr l) => Return (PrefixArray l)
      | Return VUndefined | Return VNull => Return (PrefixArray [])
      | Return (VStr s) => Return (PrefixString s)
      | Return _ => Return PrefixOther
      end
  end.

(** [prefixes.length > 0 && prefixes.some((prefix) => key.startsWith(prefix))] *)
Definition isClientSafe (prefixes : Prefixes) (key : string) : completion bool :=
  match prefixes with
  | PrefixArray l => Return ((0 <? length l)%nat && existsb (fun prefix => String.prefix prefix key) l)
  | PrefixString s =>
      if (0 <? String.length s)%nat
      then Throw (TypeError "prefixes.some is not a function")
      else Return false
  | PrefixOther => Return false
  end.

(** The loop of lines 60-69. *)
Fixpoint collect (w : World) (env : Proxy) (prefixes : Prefixes) (keys : list string)
    (clientEnv : PlainObj) : completion PlainObj :=
  match keys with
  | [] => Return clientEnv
  | key :: keys' =>
      match isClientSafe prefixes key with
      | Throw e => Throw e
      | Return false => collect w env prefixes keys' clientEnv
      | Return true =>
          match Proxy_get w env (PStr key) with
          | Throw e => Throw e
          | Return value =>
              collect w env prefixes keys'
                (if is_defined value then plain_assign clientEnv key value else clientEnv)
          end
      end
  end.

Definition script_of (o : PlainObj) : string :=
  "window.__ZENV_CLIENT__ = " +:+ escape_close_tags (JSON_stringify o) +:+ ";".

Definition getClientEnvScript (w : World) (env : Proxy) (clientSafePrefixes : option (list string))
  : completion string :=
  if isClient w then
    match window w with
    | Some (Some injected) => Return (script_of injected)
    | _ => Return ""
    end
  else
    match prefixes_of w env clientSafePrefixes with
    | Throw e => Throw e
    | Return prefixes =>
        match collect w env prefixes (Proxy_keys env) [] with
        | Throw e => Throw e
        | Return clientEnv => Return (script_of clientEnv)
        end
    end.

End ClientInject.
Export ClientInject.

(** ** Leaf validators with default variants *)

Module Validators.

(** Modelled from the spec: [validators.ts], which builds the leaf
    validators and gives them their default variants, is not among the
    sources; only its callers and tests are.  The definitions of this module
    follow the specification (data model, default precedence) and the tests
    that exercise the defaults.

    A variant is [None] when it was not declared and [Some v] when it was,
    [Some VUndefined] being a variant declared with the absence marker. *)
Record DefaultVariants : Type := mkDefaults {
  default_ : option value;
  devDefault : option value;
  testDefault : option value
}.

(** Modelled from the spec: no variant declared. *)
Definition no_defaults : DefaultVariants := mkDefaults None None None.

(** Modelled from the spec: the variant that applies in the current mode. *)
Definition applicable_default (w : World) (d : DefaultVariants) : option value :=
  if isDevelopment w then
    match devDefault d with
    | Some v => Some v
    | None => default_ d
    end
  else if isTest w then
    match testDefault d with
    | Some v => Some v
    | None => default_ d
    end
  else default_ d.

(** Modelled from the spec: a validator made of a leaf predicate [check],
    default variants and metadata.  A raw value goes to the predicate as it
    is; without one the applicable default is the result; without either the
    predicate sees the absent value and decides (a required value fails). *)
Definition makeValidator (check : value -> ParseOutcome) (d : DefaultVariants)
    (meta : option SchemaMetadata) : Validator :=
  mkValidator
    (fun w raw =>
       match raw with
       | VUndefined =>
           match applicable_default w d with
           | Some v => ParseOk v
           | None => check VUndefined
           end
       | _ => check raw
       end)
    meta.

(** Modelled from the spec: the failure of a required value that is
    missing. *)
Definition missing_issue : ZodIssue :=
  mkIssue "invalid_type" "Invalid input: expected string, received undefined" []
          (Some "undefined").

(** Modelled from the spec: the leaf predicate of a string validator. *)
Definition check_string (v : value) : ParseOutcome :=
  match v with
  | VStr s => ParseOk (VStr s)
  | VUndefined => ParseFail (CaughtZod (mkZodError [missing_issue]))
  | _ => ParseFail (CaughtZod (mkZodError
           [mkIssue "invalid_type" "Invalid input: expected string" [] None]))
  end.

(** Modelled from the spec: the string validator, with its default variants
    and its client configuration. *)
Definition str (d : DefaultVariants) (c : option ClientConfig) : Validator :=
  makeValidator check_string d (Some (mkMeta [] c None None)).

End Validators.
Export Validators.

(** ** More of [types/guards]: the coercions *)

Module Guards.

(** [value.toLowerCase()].  The words the coercions compare with are ASCII,
    and no character outside ASCII lowers to one of their letters. *)
Fixpoint toLowerCase (s : string) : string :=
  match s with
  | EmptyString => EmptyString
  | String c rest => String (lower c) (toLowerCase rest)
  end.

(** [ensureString]: strings as they are, numbers and booleans printed, an
    array through [JSON.stringify]; [null] and [undefined] are refused. *)
Definition ensureString (v : value) : completion string :=
  match v with
  | VStr s => Return s
  | VNum n => Return (string_of_Z n)
  | VBool b => Return (if b then "true" else "false")
  | VNull | VUndefined => Throw (PlainError "Cannot convert null or undefined to string")
  | VStrArr l => Return ("[" +:+ join "," (map json_string l) +:+ "]")
  end.

(** [Boolean(value)] *)
Definition Boolean (v : value) : bool :=
  match v with
  | VUndefined | VNull => false
  | VBool b => b
  | VNum n => negb (n =? 0)
  | VStr s => negb (String.eqb s "")
  | VStrArr _ => true
  end.

Definition ensureBoolean (v : value) : bool :=
  match v with
  | VBool b => b
  | VStr s =>
      let lower := toLowerCase s in
      if mem_string lower ["true"; "1"; "yes"; "on"] then true
      else if mem_string lower ["false"; "0"; "no"; "off"] then false
      else Boolean v
  | VNum n => negb (n =? 0)
  | _ => Boolean v
  end.


End Guards.
Export Guards.

(** * Vocabulary of the statements *)

(** ** Worlds *)

(** A Node process whose [process.env] is [processEnv]; no [window]. *)
Definition backend_world (processEnv : PlainObj) : World := mkWorld None (Some processEnv).

(** A browser without an injected bootstrap object and without [process]. *)
Definition browser_world : World := mkWorld (Some None) None.

(** Node processes that differ in the mode variable only. *)
Definition development_world : World := backend_world [("NODE_ENV", VStr "development")].
Definition production_world : World := backend_world [("NODE_ENV", VStr "production")].
Definition test_world : World := backend_world [("NODE_ENV", VStr "test")].

(** ** Objects *)

(** The descriptor [defineProperty] leaves at its key. *)
Definition defined_desc (old : option PropDesc) (i : DescInit) : PropDesc :=
  match old with
  | None =>
      mkDesc (di_value i) (default false (di_enumerable i))
             (default false (di_writable i)) (default false (di_configurable i))
  | Some d =>
      mkDesc (di_value i) (default (pd_enumerable d) (di_enumerable i))
             (default (pd_writable d) (di_writable i))
             (default (pd_configurable d) (di_configurable i))
  end.

(** The descriptor an assignment leaves at its key. *)
Definition assigned_desc (old : option PropDesc) (v : value) : PropDesc :=
  match old with
  | None => mkDesc v true true true
  | Some d => mkDesc v (pd_enumerable d) (pd_writable d) (pd_configurable d)
  end.

(** Every property of [o] is an ordinary one: enumerable, writable and
    configurable, as assignment creates them. *)
Definition ordinary (o : JsObj) : Prop :=
  forall k d, own_lookup o k = Some d ->
              pd_enumerable d = true /\ pd_writable d = true /\ pd_configurable d = true.

(** ** The resolver, one entry at a time *)

(** What resolving one entry amounts to when the entry is looked at alone. *)
Inductive KeyOutcome : Type :=
  | KeySkipped
  | KeyResolved (v : value)
  | KeyFailed (e : ZodError).

(** The record made for an entry that is not a recognized validator. *)
Definition invalid_validator_record (key : string) : ZodError :=
  mkZodError
    [mkIssue "custom"
       ("Invalid validator for " +:+ dquote +:+ key +:+ dquote +:+ ": must be a Zod schema")
       [key] None].

Definition key_outcome (w : World) (env : PlainObj) (options : ZenvOptions)
    (entry : string * SpecEntry) : KeyOutcome :=
  match snd entry with
  | NotSchema => KeyFailed (invalid_validator_record (fst entry))
  | Schema s =>
      if shouldSkip w options (fst entry) s then KeySkipped
      else
        match parse s w (plain_get env (fst entry)) with
        | ParseOk v => KeyResolved v
        | ParseFail c => KeyFailed (failure_record (fst entry) c)
        end
  end.

(** The failure an entry contributes, and the reads it causes. *)
Definition failures_of (w : World) (env : PlainObj) (options : ZenvOptions)
    (entry : string * SpecEntry) : list ZodError :=
  match key_outcome w env options entry with
  | KeyFailed e => [e]
  | _ => []
  end.

Definition reads_of (w : World) (env : PlainObj) (options : ZenvOptions)
    (entry : string * SpecEntry) : list Event :=
  match snd entry with
  | NotSchema => []
  | Schema s =>
      if shouldSkip w options (fst entry) s then []
      else [EvReadRaw (fst entry); EvParse (fst entry) (plain_get env (fst entry))]
  end.

(** What it means for a key that its resolution ended as [o]. *)
Definition resolves_as (r : Resolution) (key : string) (o : ParseOutcome) : Prop :=
  match o with
  | ParseOk v => own_lookup (result r) key = Some (mkDesc v true true true)
  | ParseFail c => own_lookup (result r) key = None /\ failure_record key c ∈ errors r
  end.

(** The pairs a run resolves, in the order of the spec. *)
Definition resolved_pairs (w : World) (env : PlainObj) (options : ZenvOptions)
    (specs : ZenvSpec) : list (string * value) :=
  omap (fun entry =>
          match key_outcome w env options entry with
          | KeyResolved v => Some (fst entry, v)
          | _ => None
          end) specs.

(** Whether a key starts with a configured server-only (resp. client-safe)
    prefix. *)
Definition server_only_key (options : ZenvOptions) (key : string) : bool :=
  startsWithAny key (default [] (serverOnlyPrefixes options)).

Definition client_safe_key (options : ZenvOptions) (key : string) : bool :=
  startsWithAny key (default [] (clientSafePrefixes options)).

(** The environment the entry point returns, when it returns. *)
Definition returned_env (w : World) (specs : ZenvSpec) (options : ZenvOptions) : Proxy :=
  let env := default (Runtime.env w) (opt_env options) in
  let r := validateSpecs w specs env options in
  createProtectiveProxy w
    (attachClientSafePrefixes options (addEnvAccessors w (result r) env))
    (metadata r) options env.

(** The client configuration of a validator, if it has one. *)
Definition client_of (s : Validator) : option ClientConfig := getMetadata s ≫= client.

(** Whether the front-end may read a validated key: never under a
    server-only prefix; otherwise as the client configuration says or,
    without one, as the safe prefixes say. *)
Definition exposed_key (options : ZenvOptions) (key : string) (s : Validator) : bool :=
  negb (server_only_key options key) &&
  match client_of s with
  | Some c => expose c
  | None => client_safe_key options key
  end.

(** The value an exposed key has on the front-end before the transform:
    the resolved value [v], unless the key is absent from the source and the
    client configuration has a default for the mode of the read. *)
Definition client_side_value (w' : World) (source : PlainObj) (key : string)
    (c : option ClientConfig) (v : value) : value :=
  match c with
  | Some c =>
      if plain_in source key then v
      else if isDevelopment w' && is_defined (client_devDefault c) then client_devDefault c
      else if is_defined (client_default c) then client_default c
      else v
  | None => v
  end.

(** The mode word an accessor name stands for. *)
Definition accessor_word (a : string) : string :=
  if mem_string a ["isDevelopment"; "isDev"] then "development"
  else if mem_string a ["isProduction"; "isProd"] then "production"
  else "test".

(** The message of the error a hidden key raises under the throwing
    policy, and of the warning it logs under the warning policy. *)
Definition hidden_key_error (key : string) : JsError :=
  PlainError ("Cannot access server-only environment variable '" +:+ key +:+ "' on client").

Definition hidden_key_warning (key : string) : Event :=
  EvConsoleWarn ("[zenv] Warning: Attempted to access server-only variable "
                 +:+ dquote +:+ key +:+ dquote +:+ " on client").

(** ** The proxy and the generator *)

(** The configured transform of a key, if any. *)
Definition transform_of (px : Proxy) (prop : PropKey) : option (value -> value) :=
  ((px_metadata px !! String_of prop) ≫= client) ≫= transform.

(** [c] does not occur in [s]. *)
Fixpoint lacks (c : ascii) (s : string) : bool :=
  match s with
  | EmptyString => true
  | String x s' => negb (Ascii.eqb x c) && lacks c s'
  end.

(** The loop of the generator with its reads resolved. *)
Definition safe_pairs (env : Proxy) (prefixes keys : list string) (clientEnv : PlainObj)
  : PlainObj :=
  fold_left
    (fun acc key =>
       if (0 <? length prefixes)%nat && existsb (fun prefix => String.prefix prefix key) prefixes
       then
         let value := get_property (target env) (PStr key) in
         if is_defined value then plain_assign acc key value else acc
       else acc)
    keys clientEnv.

(** ** Examples *)

Definition required_string : Validator := str no_defaults None.

(** A string validator exposed to the front-end by its client
    configuration. *)
Definition exposed_string : Validator :=
  str no_defaults (Some (mkClient true None VUndefined VUndefined)).

(** A string validator with all three default variants declared. *)
Definition log_level : Validator :=
  makeValidator check_string
    (mkDefaults (Some (VStr "info")) (Some (VStr "debug")) (Some (VStr "error"))) None.

(** Option bags with one option set. *)
Definition only_onError (b : ErrorBehavior) : ZenvOptions :=
  mkOptions None (Some b) None None None None None.

Definition with_prefixes (l : list string) : ZenvOptions :=
  mkOptions None None None None (Some l) None None.

Definition ignore_access_errors : ZenvOptions :=
  mkOptions None None None None None None (Some AccessIgnore).

Definition server_only_prefix : ZenvOptions :=
  mkOptions None None None None None (Some ["SERVER_"]) None.

(** Two required keys around an entry that is not a validator. *)
Definition three_keys : ZenvSpec :=
  [ ("API_KEY", Schema required_string);
    ("PORT", NotSchema);
    ("HOST", Schema required_string) ].

(** The scenario of the bootstrap script. *)
Definition public_and_secret : ZenvSpec :=
  [ ("PUBLIC_X", Schema required_string); ("SECRET", Schema required_string) ].

Definition public_and_secret_source : PlainObj :=
  [ ("PUBLIC_X", VStr "v"); ("SECRET", VStr "s") ].

(** The script expected for [{PUBLIC_X: "v", SECRET: "s"}] and the prefix
    list [["PUBLIC_"]]. *)
Definition public_x_script : string :=
  "window.__ZENV_CLIENT__ = {" +:+ dquote +:+ "PUBLIC_X" +:+ dquote +:+ ":"
  +:+ dquote +:+ "v" +:+ dquote +:+ "};".

(** The environment the entry point returns for the empty spec in
    development mode. *)
Definition development_env : Proxy :=
  createProtectiveProxy development_world
    (addEnvAccessors development_world [] [("NODE_ENV", VStr "development")])
    ∅ no_options [("NODE_ENV", VStr "development")].

(** The environment of the bootstrap scenario, resolved with the safe
    prefix [PUBLIC_] configured. *)
Definition public_and_secret_env : Proxy :=
  let w := backend_world public_and_secret_source in
  let options := with_prefixes ["PUBLIC_"] in
  let r := validateSpecs w public_and_secret public_and_secret_source options in
  createProtectiveProxy w
    (attachClientSafePrefixes options (addEnvAccessors w (result r) public_and_secret_source))
    (metadata r) options public_and_secret_source.

(** A client-side transform. *)
Definition add_https (v : value) : value :=
  match v with
  | VStr s => VStr ("https://" +:+ s)
  | _ => v
  end.

(** A [NODE_ENV] entry that defaults to "test". *)
Definition node_env_test : Validator := str (mkDefaults (Some (VStr "test")) None None) None.

(** A browser whose page carries the injected object [o], and no
    [process]. *)
Definition hydrated_browser (o : PlainObj) : World := mkWorld (Some (Some o)) None.

(** A string validator exposed to the front-end with a transform. *)
Definition api_host : Validator :=
  str no_defaults (Some (mkClient true (Some add_https) VUndefined VUndefined)).

(** A front-end environment holding [API_HOST], exposed with a transform. *)
Definition api_host_proxy : Proxy :=
  mkProxy [("API_HOST", mkDesc (VStr "api.example.com") true true true)]
    {[ "API_HOST" :=
         mkMeta [] (Some (mkClient true (Some add_https) VUndefined VUndefined))
                (Some false) (Some false) ]}
    true AccessIgnore [("API_HOST", VStr "api.example.com")].

(** Closed goals about concrete data are decided by evaluation. *)
Ltac by_evaluation :=
  match goal with
  | |- ?P => let d := constr:(_ : Decision P) in
             refine (@bool_decide_unpack P d _); vm_compute; exact I
  end.

(** * Properties *)

(** ** Objects: lookups after [assign] and [defineProperty] *)

Section ObjectFacts.

Implicit Types (o : JsObj) (k : string) (i : DescInit).

Lemma own_lookup_defineProperty_eq o k i :
  own_lookup (defineProperty o k i) k = Some (defined_desc (own_lookup o k) i).
Proof.
  induction o as [|[k' d] o IH]; simpl.
  - by rewrite String.eqb_refl.
  - destruct (String.eqb k' k) eqn:E; simpl; rewrite E; [done | exact IH].
Qed.

Lemma own_lookup_defineProperty_ne o k i k' :
  k <> k' -> own_lookup (defineProperty o k i) k' = own_lookup o k'.
Proof.
  intros Hne. induction o as [|[k0 d] o IH]; simpl.
  - by apply String.eqb_neq in Hne as ->.
  - destruct (String.eqb k0 k) eqn:E; simpl.
    + apply String.eqb_eq in E as ->.
      by apply String.eqb_neq in Hne as ->.
    + by rewrite IH.
Qed.

Lemma own_lookup_assign_eq o k v :
  own_lookup (assign o k v) k = Some (assigned_desc (own_lookup o k) v).
Proof.
  induction o as [|[k' d] o IH]; simpl.
  - by rewrite String.eqb_refl.
  - destruct (String.eqb k' k) eqn:E; simpl; rewrite E; [done | exact IH].
Qed.

Lemma own_lookup_assign_ne o k v k' :
  k <> k' -> own_lookup (assign o k v) k' = own_lookup o k'.
Proof.
  intros Hne. induction o as [|[k0 d] o IH]; simpl.
  - by apply String.eqb_neq in Hne as ->.
  - destruct (String.eqb k0 k) eqn:E; simpl.
    + apply String.eqb_eq in E as ->.
      by apply String.eqb_neq in Hne as ->.
    + by rewrite IH.
Qed.

(** An assignment to a key the object lacks creates an ordinary property. *)
Lemma own_lookup_assign_fresh o k v :
  own_lookup o k = None -> own_lookup (assign o k v) k = Some (mkDesc v true true true).
Proof. intros Hk. by rewrite own_lookup_assign_eq, Hk. Qed.

End ObjectFacts.

(** ** The resolver, one entry at a time *)

Section Resolver.

Variables (w : World) (env : PlainObj) (options : ZenvOptions).

Local Abbreviation step := (validateSpecs_step w env options).
Local Abbreviation run := (fold_left (validateSpecs_step w env options)).

Lemma step_errors st entry :
  errors (step st entry) = errors st ++ failures_of w env options entry.
Proof.
  destruct entry as [key [|s]]; unfold failures_of, key_outcome; simpl.
  - reflexivity.
  - destruct (shouldSkip w options key s); simpl; [by rewrite app_nil_r |].
    destruct (parse s w (plain_get env key)); simpl; [by rewrite app_nil_r | done].
Qed.

Lemma step_events st entry :
  events (step st entry) = events st ++ reads_of w env options entry.
Proof.
  destruct entry as [key [|s]]; unfold reads_of; simpl.
  - by rewrite app_nil_r.
  - destruct (shouldSkip w options key s); simpl; [by rewrite app_nil_r |].
    by destruct (parse s w (plain_get env key)).
Qed.

Lemma step_result st entry :
  result (step st entry) =
  match key_outcome w env options entry with
  | KeyResolved v => assign (result st) (fst entry) v
  | _ => result st
  end.
Proof.
  destruct entry as [key [|s]]; unfold key_outcome; simpl; [done |].
  destruct (shouldSkip w options key s); simpl; [done |].
  by destruct (parse s w (plain_get env key)).
Qed.

(** A recognized validator always leaves a metadata entry; an unrecognized
    entry leaves the map alone. *)
Lemma step_metadata_schema st key s :
  is_Some (metadata (step st (key, Schema s)) !! key).
Proof.
  simpl. destruct (shouldSkip w options key s); simpl.
  - rewrite lookup_insert_eq. eauto.
  - destruct (parse s w (plain_get env key)); simpl; rewrite lookup_insert_eq; eauto.
Qed.

Lemma step_metadata_not_schema st key :
  metadata (step st (key, NotSchema)) = metadata st.
Proof. reflexivity. Qed.

Lemma step_metadata_other st entry k :
  fst entry <> k -> metadata (step st entry) !! k = metadata st !! k.
Proof.
  destruct entry as [key [|s]]; simpl; intros Hne; [done |].
  destruct (shouldSkip w options key s); simpl.
  - by rewrite lookup_insert_ne.
  - destruct (parse s w (plain_get env key)); simpl; by rewrite lookup_insert_ne.
Qed.

Lemma step_metadata_mono st entry k :
  is_Some (metadata st !! k) -> is_Some (metadata (step st entry) !! k).
Proof.
  intros Hk. destruct (decide (fst entry = k)) as [<- | Hne].
  - destruct entry as [key [|s]]; [exact Hk | apply step_metadata_schema].
  - by rewrite step_metadata_other.
Qed.

Lemma run_errors specs st :
  errors (run specs st) = errors st ++ flat_map (failures_of w env options) specs.
Proof.
  revert st. induction specs as [|entry specs IH]; intros st; simpl.
  - by rewrite app_nil_r.
  - by rewrite IH, step_errors, <- app_assoc.
Qed.

Lemma run_events specs st :
  events (run specs st) = events st ++ flat_map (reads_of w env options) specs.
Proof.
  revert st. induction specs as [|entry specs IH]; intros st; simpl.
  - by rewrite app_nil_r.
  - by rewrite IH, step_events, <- app_assoc.
Qed.

Lemma run_metadata_mono specs st k :
  is_Some (metadata st !! k) -> is_Some (metadata (run specs st) !! k).
Proof.
  revert st. induction specs as [|entry specs IH]; intros st Hk; simpl; [done |].
  by apply IH, step_metadata_mono.
Qed.

Lemma run_metadata_other specs st k :
  k ∉ map fst specs -> metadata (run specs st) !! k = metadata st !! k.
Proof.
  revert st. induction specs as [|entry specs IH]; intros st Hk; simpl; [done |].
  simpl in Hk. apply not_elem_of_cons in Hk as [Hne Hk].
  rewrite IH by done. by apply step_metadata_other.
Qed.

Lemma run_result_other specs st k :
  k ∉ map fst specs -> own_lookup (result (run specs st)) k = own_lookup (result st) k.
Proof.
  revert st. induction specs as [|entry specs IH]; intros st Hk; simpl; [done |].
  simpl in Hk. apply not_elem_of_cons in Hk as [Hne Hk].
  rewrite IH by done. rewrite step_result.
  destruct (key_outcome w env options entry); try done.
  by apply own_lookup_assign_ne.
Qed.

(** With distinct keys, what the run stores for a key is decided by that
    key's entry alone. *)
Lemma run_result_at specs key entry :
  NoDup (map fst specs) -> (key, entry) ∈ specs ->
  own_lookup (result (validateSpecs w specs env options)) key =
  match key_outcome w env options (key, entry) with
  | KeyResolved v => Some (mkDesc v true true true)
  | _ => None
  end.
Proof.
  intros Hnd Hin. unfold validateSpecs.
  apply list_elem_of_split in Hin as (l1 & l2 & ->).
  rewrite map_app in Hnd. simpl in Hnd.
  apply NoDup_app in Hnd as (_ & Hl1 & Hnd).
  apply NoDup_cons in Hnd as [Hl2 _].
  assert (key ∉ map fst l1) as Hk1.
  { intros Hk. apply (Hl1 _ Hk). left. }
  rewrite fold_left_app. cbn [fold_left].
  rewrite run_result_other by done.
  rewrite step_result. simpl.
  assert (own_lookup (result (run l1 (mkResolution [] ∅ [] []))) key = None) as Hnone.
  { by rewrite run_result_other. }
  destruct (key_outcome w env options (key, entry)); try done.
  by apply own_lookup_assign_fresh.
Qed.

Lemma run_metadata_schema specs key s :
  (key, Schema s) ∈ specs ->
  is_Some (metadata (validateSpecs w specs env options) !! key).
Proof.
  intros Hin. unfold validateSpecs.
  apply list_elem_of_split in Hin as (l1 & l2 & ->).
  rewrite fold_left_app. cbn [fold_left].
  apply run_metadata_mono, step_metadata_schema.
Qed.

Lemma run_metadata_not_schema specs key :
  NoDup (map fst specs) -> (key, NotSchema) ∈ specs ->
  metadata (validateSpecs w specs env options) !! key = None.
Proof.
  intros Hnd Hin. unfold validateSpecs.
  apply list_elem_of_split in Hin as (l1 & l2 & ->).
  rewrite map_app in Hnd. simpl in Hnd.
  apply NoDup_app in Hnd as (_ & Hl1 & Hnd).
  apply NoDup_cons in Hnd as [Hl2 _].
  assert (key ∉ map fst l1) as Hk1.
  { intros Hk. apply (Hl1 _ Hk). left. }
  rewrite fold_left_app. cbn [fold_left].
  rewrite run_metadata_other by done.
  rewrite step_metadata_not_schema.
  by rewrite run_metadata_other.
Qed.

(** Only spec keys are ever stored. *)
Lemma run_result_keys specs k :
  is_Some (own_lookup (result (validateSpecs w specs env options)) k) -> k ∈ map fst specs.
Proof.
  intros Hk. destruct (decide (k ∈ map fst specs)) as [|Hn]; [done |].
  unfold validateSpecs in Hk. rewrite run_result_other in Hk by done.
  simpl in Hk. by destruct Hk.
Qed.

End Resolver.

(** ** Aggregation of failures (C6) *)

(** C6.  Resolution never short-circuits.  Whatever the spec and the
    source, the failure list after resolution is the concatenation, in the
    order of the spec's entries, of the failure each entry yields on its own
    (a rejection or a missing value reported by the validator, or the record
    made for an entry that is not a recognized validator); every entry that
    is not skipped has its raw value read and parsed, whatever happened to the
    entries before it; with distinct keys, every entry that resolves is stored
    under its key.  Under [onError = "throw"] the entry point throws one
    composite error carrying exactly that list when it is not empty, and
    returns the environment otherwise. *)
Theorem C6_failures_are_aggregated (w : World) (specs : ZenvSpec) (options : ZenvOptions) :
  onError options = Some OnErrorThrow ->
  let env := default (Runtime.env w) (opt_env options) in
  let r := validateSpecs w specs env options in
  errors r = flat_map (failures_of w env options) specs
  /\ events r = flat_map (reads_of w env options) specs
  /\ (forall key, (key, NotSchema) ∈ specs -> invalid_validator_record key ∈ errors r)
  /\ (forall key s c, (key, Schema s) ∈ specs -> shouldSkip w options key s = false ->
        parse s w (plain_get env key) = ParseFail c -> failure_record key c ∈ errors r)
  /\ (forall key entry, NoDup (map fst specs) -> (key, entry) ∈ specs ->
        own_lookup (result r) key =
        match key_outcome w env options (key, entry) with
        | KeyResolved v => Some (mkDesc v true true true)
        | _ => None
        end)
  /\ match errors r with
     | [] => exists px, zenv w specs options = (ZenvReturn px, events r)
     | _ :: _ => fst (zenv w specs options) = ZenvThrow "Environment validation failed" (errors r)
     end.
Proof.
  intros Hthrow env r.
  assert (errors r = flat_map (failures_of w env options) specs) as Herr.
  { unfold r, validateSpecs. by rewrite run_errors. }
  split; [exact Herr |].
  split; [unfold r, validateSpecs; by rewrite run_events |].
  split.
  { intros key Hin. rewrite Herr. apply list_elem_of_In, in_flat_map.
    exists (key, NotSchema). split; [by apply list_elem_of_In | by left]. }
  split.
  { intros key s c Hin Hskip Hparse. rewrite Herr. apply list_elem_of_In, in_flat_map.
    exists (key, Schema s). split; [by apply list_elem_of_In |].
    unfold failures_of, key_outcome. simpl. rewrite Hskip, Hparse. by left. }
  split.
  { intros key entry Hnd Hin. by apply run_result_at. }
  unfold zenv. rewrite Hthrow. simpl. fold env. fold r.
  destruct (errors r) as [|e es]; simpl; eauto.
Qed.

(** Three keys, two required values missing around an entry that is not a
    validator: one error carrying the three records, in order. *)
Lemma C6_witness :
  onError (only_onError OnErrorThrow) = Some OnErrorThrow
  /\ fst (zenv (backend_world []) three_keys (only_onError OnErrorThrow)) =
     ZenvThrow "Environment validation failed"
       [ failure_record "API_KEY" (CaughtZod (mkZodError [missing_issue]));
         invalid_validator_record "PORT";
         failure_record "HOST" (CaughtZod (mkZodError [missing_issue])) ].
Proof.
  split; [reflexivity |].
  exact (proj2 (proj2 (proj2 (proj2 (proj2
    (C6_failures_are_aggregated (backend_world []) three_keys (only_onError OnErrorThrow)
       eq_refl)))))).
Defined.

(** ** Metadata entries (C7) *)

(** C7, as stated, fails: an entry that is not a recognized validator is
    rejected before any metadata is stored, so its key has no entry. *)
Lemma C7_counterexample :
  "PORT" ∈ map fst [("PORT", NotSchema)]
  /\ errors (validateSpecs (backend_world []) [("PORT", NotSchema)] [] no_options)
     = [invalid_validator_record "PORT"]
  /\ metadata (validateSpecs (backend_world []) [("PORT", NotSchema)] [] no_options)
       !! "PORT" = None.
Proof. split; [by_evaluation | split; reflexivity]. Qed.

(** C7, amended.  With the keys of the spec distinct, after resolution the
    metadata map has an entry for every key whose entry is a recognized
    validator, whatever the outcome for that key (stored, rejected by the
    validator, or skipped on the front-end), and has none for a key whose
    entry is not a recognized validator. *)
Theorem C7_metadata_entries (w : World) (specs : ZenvSpec) (env : PlainObj)
    (options : ZenvOptions) (key : string) (entry : SpecEntry) :
  NoDup (map fst specs) ->
  (key, entry) ∈ specs ->
  match entry with
  | Schema _ => is_Some (metadata (validateSpecs w specs env options) !! key)
  | NotSchema => metadata (validateSpecs w specs env options) !! key = None
  end.
Proof.
  intros Hnd Hin. destruct entry as [|s].
  - by apply run_metadata_not_schema.
  - by apply (run_metadata_schema _ _ _ _ _ s).
Qed.

(** The key [HOST] of the three keys, in a browser. *)
Lemma C7_witness :
  NoDup (map fst three_keys)
  /\ ("HOST", Schema required_string) ∈ three_keys
  /\ is_Some (metadata (validateSpecs browser_world three_keys [] no_options) !! "HOST").
Proof.
  assert (NoDup (map fst three_keys)) as Hnd by by_evaluation.
  assert (("HOST", Schema required_string) ∈ three_keys) as Hin.
  { do 2 apply list_elem_of_further. apply list_elem_of_here. }
  split; [exact Hnd | split; [exact Hin |]].
  exact (C7_metadata_entries browser_world three_keys [] no_options "HOST"
           (Schema required_string) Hnd Hin).
Defined.

(** ** Default precedence on the backend (C1) *)

Section Outcome.

Variables (w : World) (env : PlainObj) (options : ZenvOptions).

(** A validated entry is handed [env[key]] as it is, and the key resolves
    as the validator answers. *)
Lemma validated_entry specs key s :
  NoDup (map fst specs) -> (key, Schema s) ∈ specs -> shouldSkip w options key s = false ->
  let r := validateSpecs w specs env options in
  EvParse key (plain_get env key) ∈ events r
  /\ resolves_as r key (parse s w (plain_get env key)).
Proof.
  intros Hnd Hin Hskip r. split.
  - unfold r, validateSpecs. rewrite run_events. simpl.
    apply list_elem_of_In, in_flat_map. exists (key, Schema s).
    split; [by apply list_elem_of_In |].
    unfold reads_of. simpl. rewrite Hskip. right. by left.
  - pose proof (run_result_at w env options specs key (Schema s) Hnd Hin) as Hres.
    unfold key_outcome in Hres. simpl in Hres. rewrite Hskip in Hres.
    fold r in Hres. unfold resolves_as.
    destruct (parse s w (plain_get env key)) as [v|c] eqn:Hparse; [exact Hres |].
    split; [exact Hres |].
    unfold r, validateSpecs. rewrite run_errors. simpl.
    apply list_elem_of_In, in_flat_map. exists (key, Schema s).
    split; [by apply list_elem_of_In |].
    unfold failures_of, key_outcome. simpl. rewrite Hskip, Hparse. by left.
Qed.

End Outcome.

(** C1.  On the backend, for a key of a spec with distinct keys whose
    validator carries default variants: the validator is handed [env[key]]
    as it is.  When that is a raw value, the key resolves as the leaf
    predicate answers on it and no declared default plays a part.  When the
    source has no value for the key: in development (resp. test) mode a
    declared [devDefault] (resp. [testDefault]) is the resolved value, even
    when it was declared as [undefined]; otherwise a declared base default is;
    otherwise the key resolves as the predicate answers on the absent value
    (a missing-variable failure for a required value). *)
Theorem C1_default_precedence (w : World) (specs : ZenvSpec) (env : PlainObj)
    (options : ZenvOptions) (key : string) (check : value -> ParseOutcome)
    (d : DefaultVariants) (meta : option SchemaMetadata) :
  isClient w = false ->
  NoDup (map fst specs) ->
  (key, Schema (makeValidator check d meta)) ∈ specs ->
  let r := validateSpecs w specs env options in
  EvParse key (plain_get env key) ∈ events r
  /\ match plain_get env key with
     | VUndefined =>
         match (if isDevelopment w then devDefault d
                else if isTest w then testDefault d else None) with
         | Some v => resolves_as r key (ParseOk v)
         | None =>
             match default_ d with
             | Some v => resolves_as r key (ParseOk v)
             | None => resolves_as r key (check VUndefined)
             end
         end
     | raw => resolves_as r key (check raw)
     end.
Proof.
  intros Hback Hnd Hin r.
  assert (shouldSkip w options key (makeValidator check d meta) = false) as Hskip.
  { unfold shouldSkip. by rewrite Hback. }
  destruct (validated_entry w env options specs key _ Hnd Hin Hskip) as [Hev Hres].
  fold r in Hev, Hres. split; [exact Hev |].
  simpl in Hres. unfold applicable_default in Hres.
  destruct (plain_get env key); try exact Hres.
  destruct (isDevelopment w).
  - by destruct (devDefault d), (default_ d).
  - destruct (isTest w).
    + by destruct (testDefault d), (default_ d).
    + by destruct (default_ d).
Qed.

(** In test mode, with all three variants declared and no raw value,
    [testDefault] is what [LOG_LEVEL] holds. *)
Lemma C1_witness :
  isClient test_world = false
  /\ NoDup (map fst [("LOG_LEVEL", Schema log_level)])
  /\ ("LOG_LEVEL", Schema log_level) ∈ [("LOG_LEVEL", Schema log_level)]
  /\ own_lookup (result (validateSpecs test_world [("LOG_LEVEL", Schema log_level)]
                           [("NODE_ENV", VStr "test")] no_options)) "LOG_LEVEL"
     = Some (mkDesc (VStr "error") true true true).
Proof.
  assert (NoDup (map fst [("LOG_LEVEL", Schema log_level)])) as Hnd by by_evaluation.
  assert (("LOG_LEVEL", Schema log_level) ∈ [("LOG_LEVEL", Schema log_level)]) as Hin
    by apply list_elem_of_here.
  split; [reflexivity | split; [exact Hnd | split; [exact Hin |]]].
  exact (proj2 (C1_default_precedence test_world [("LOG_LEVEL", Schema log_level)]
                  [("NODE_ENV", VStr "test")] no_options "LOG_LEVEL" check_string
                  (mkDefaults (Some (VStr "info")) (Some (VStr "debug")) (Some (VStr "error")))
                  None eq_refl Hnd Hin)).
Defined.

(** ** The returned environment *)

Section Returned.

Variables (w : World) (specs : ZenvSpec) (options : ZenvOptions).

Local Abbreviation env := (default (Runtime.env w) (opt_env options)).
Local Abbreviation r := (validateSpecs w specs env options).

(** Whenever the entry point returns, it returns this proxy. *)
Lemma zenv_returns px :
  fst (zenv w specs options) = ZenvReturn px ->
  px = createProtectiveProxy w
         (attachClientSafePrefixes options (addEnvAccessors w (result r) env))
         (metadata r) options env.
Proof.
  unfold zenv. fold env. fold r.
  destruct (0 <? length (errors r))%nat; simpl.
  - destruct (default (defaultErrorBehavior w) (onError options)); simpl;
      [discriminate | destruct (isNode w); simpl; [discriminate |] |]; congruence.
  - congruence.
Qed.

(** The accessor properties of the target, as [addEnvAccessors] left them. *)
Lemma accessor_lookup (res : JsObj) (a : string) :
  a ∈ accessorProps ->
  exists d,
    own_lookup (attachClientSafePrefixes options (addEnvAccessors w res env)) a = Some d
    /\ pd_enumerable d = false
    /\ pd_value d =
       VBool (String.eqb (accessor_nodeEnv w res env)
                (if mem_string a ["isDevelopment"; "isDev"] then "development"
                 else if mem_string a ["isProduction"; "isProd"] then "production"
                 else "test")).
Proof.
  intros Ha.
  assert (own_lookup (attachClientSafePrefixes options (addEnvAccessors w res env)) a
          = own_lookup (addEnvAccessors w res env) a) as ->.
  { unfold attachClientSafePrefixes. destruct (clientSafePrefixes options); [| done].
    apply own_lookup_defineProperty_ne. intros <-. revert Ha. by_evaluation. }
  unfold addEnvAccessors, defineProperties. cbn [fold_left fst snd].
  repeat (apply elem_of_cons in Ha as [-> | Ha]);
    [ .. | by apply elem_of_nil in Ha ];
    repeat (rewrite own_lookup_defineProperty_ne by done);
    rewrite own_lookup_defineProperty_eq;
    (eexists; split; [reflexivity |]);
    split; by destruct (own_lookup _ _).
Qed.

End Returned.

(** A read of an accessor name goes straight to the target, in every world
    and whatever the options. *)
Lemma trap_get_accessor (w : World) (px : Proxy) (a : string) :
  a ∈ accessorProps ->
  trap_get w px (PStr a) = (Return (get_property (target px) (PStr a)), no_events).
Proof.
  intros Ha.
  repeat (apply elem_of_cons in Ha as [-> | Ha]);
    [ .. | by apply elem_of_nil in Ha ]; reflexivity.
Qed.

(** ** The derived booleans (C4) *)

(** C4, as stated, fails: an environment built while the mode variable says
    "development" still answers [isDevelopment = true] when it is read after
    the mode variable has changed to "production". *)
Lemma C4_counterexample :
  match fst (zenv development_world [] no_options) with
  | ZenvReturn px =>
      Proxy_get production_world px (PStr "isDevelopment") = Return (VBool true)
      /\ isDevelopment production_world = false
  | _ => False
  end.
Proof. split; reflexivity. Qed.

(** C4, amended.  The five derived booleans are computed once, when the
    entry point builds the environment, from the mode string it determines
    then (the resolved [NODE_ENV] if any, else the source's, else the
    runtime's); they are stored as non-enumerable properties, and every later
    read returns the stored value, in whatever world the read happens. *)
Theorem C4_accessors_fixed_at_construction (w : World) (specs : ZenvSpec)
    (options : ZenvOptions) (px : Proxy) :
  fst (zenv w specs options) = ZenvReturn px ->
  let env := default (Runtime.env w) (opt_env options) in
  let mode := accessor_nodeEnv w (result (validateSpecs w specs env options)) env in
  forall w' : World,
    Proxy_get w' px (PStr "isDevelopment") = Return (VBool (String.eqb mode "development"))
    /\ Proxy_get w' px (PStr "isDev") = Return (VBool (String.eqb mode "development"))
    /\ Proxy_get w' px (PStr "isProduction") = Return (VBool (String.eqb mode "production"))
    /\ Proxy_get w' px (PStr "isProd") = Return (VBool (String.eqb mode "production"))
    /\ Proxy_get w' px (PStr "isTest") = Return (VBool (String.eqb mode "test"))
    /\ Forall (fun a => a ∉ Proxy_keys px) accessorProps.
Proof.
  intros Hret env mode w'. apply zenv_returns in Hret.
  set (res := result (validateSpecs w specs env options)) in *.
  assert (target px = attachClientSafePrefixes options (addEnvAccessors w res env))
    as Htarget by (by rewrite Hret).
  clear Hret.
  assert (forall a, a ∈ accessorProps ->
            exists d, own_lookup (target px) a = Some d /\ pd_enumerable d = false
              /\ Proxy_get w' px (PStr a) =
                 Return (VBool (String.eqb mode
                   (if mem_string a ["isDevelopment"; "isDev"] then "development"
                    else if mem_string a ["isProduction"; "isProd"] then "production"
                    else "test")))) as Hread.
  { intros a Ha.
    destruct (accessor_lookup w options res a Ha) as (d & Hd & Hen & Hv).
    exists d. rewrite Htarget. split; [exact Hd | split; [exact Hen |]].
    unfold Proxy_get. rewrite trap_get_accessor by done.
    cbn [fst get_property]. rewrite Htarget. fold env in Hd. rewrite Hd.
    by rewrite Hv. }
  assert (forall a, a ∈ accessorProps -> a ∉ Proxy_keys px) as Hhidden.
  { intros a Ha. destruct (Hread a Ha) as (d & Hd & Hen & _).
    unfold Proxy_keys. intros Hin. apply list_elem_of_filter in Hin as [Hin _].
    cbn [trap_getOwnPropertyDescriptor getOwnPropertyDescriptor] in Hin. rewrite Hd in Hin.
    simpl in Hin. congruence. }
  repeat split;
    try (match goal with
         | |- Proxy_get _ _ (PStr ?a) = _ =>
             destruct (Hread a ltac:(by_evaluation)) as (_ & _ & _ & Hv); exact Hv
         end).
  apply Forall_forall. intros a Ha. by apply Hhidden.
Qed.

(** The environment built in development mode, read in a browser. *)
Lemma C4_witness :
  fst (zenv development_world [] no_options) = ZenvReturn development_env
  /\ Proxy_get browser_world development_env (PStr "isDev") = Return (VBool true).
Proof.
  split; [reflexivity |].
  exact (proj1 (proj2 (C4_accessors_fixed_at_construction development_world [] no_options
                         development_env eq_refl browser_world))).
Defined.

(** ** The retained prefix list (C9) *)

Lemma trap_get_inspectable (w : World) (px : Proxy) (p : PropKey) :
  p ∈ inspectables ->
  trap_get w px p = (Return (get_property (target px) p), no_events).
Proof. intros Hp. unfold trap_get. by rewrite bool_decide_eq_true_2. Qed.

(** C9, as stated, fails: without the [clientSafePrefixes] option the
    returned environment has no own property recording prefixes. *)
Lemma C9_counterexample :
  match fst (zenv (backend_world []) [] no_options) with
  | ZenvReturn px =>
      clientSafePrefixes no_options = None
      /\ own_lookup (target px) "__clientSafePrefixes__" = None
  | _ => False
  end.
Proof. split; reflexivity. Qed.

(** C9, amended.  When the [clientSafePrefixes] option is supplied, the
    returned environment owns a non-enumerable, non-writable,
    non-configurable property holding that list, and the bootstrap generator
    called without a prefix list behaves as if called with it.  When the
    option is not supplied, the entry point defines no such property (none
    exists unless the spec itself has a key of that name) and the generator
    called without a prefix list behaves as if called with the empty list. *)
Theorem C9_retained_prefixes (w : World) (specs : ZenvSpec) (options : ZenvOptions)
    (px : Proxy) :
  fst (zenv w specs options) = ZenvReturn px ->
  match clientSafePrefixes options with
  | Some prefixes =>
      own_lookup (target px) "__clientSafePrefixes__"
        = Some (mkDesc (VStrArr prefixes) false false false)
      /\ ("__clientSafePrefixes__" ∉ Proxy_keys px)
      /\ forall w', getClientEnvScript w' px None = getClientEnvScript w' px (Some prefixes)
  | None =>
      ("__clientSafePrefixes__" ∉ map fst specs) ->
      own_lookup (target px) "__clientSafePrefixes__" = None
      /\ forall w', getClientEnvScript w' px None = getClientEnvScript w' px (Some [])
  end.
Proof.
  intros Hret. apply zenv_returns in Hret.
  set (env := default (Runtime.env w) (opt_env options)) in *.
  set (res := result (validateSpecs w specs env options)) in *.
  assert (target px = attachClientSafePrefixes options (addEnvAccessors w res env))
    as Htarget by (by rewrite Hret).
  clear Hret.
  assert (forall w' v, get_property (target px) (PStr "__clientSafePrefixes__") = v ->
            Proxy_get w' px (PStr "__clientSafePrefixes__") = Return v) as Hget.
  { intros w' v <-. unfold Proxy_get. rewrite trap_get_inspectable; [done | by_evaluation]. }
  unfold attachClientSafePrefixes in Htarget.
  destruct (clientSafePrefixes options) as [prefixes|].
  - assert (own_lookup (target px) "__clientSafePrefixes__"
            = Some (mkDesc (VStrArr prefixes) false false false)) as Hown.
    { rewrite Htarget, own_lookup_defineProperty_eq. by destruct (own_lookup _ _). }
    split; [exact Hown | split].
    + unfold Proxy_keys. intros Hin. apply list_elem_of_filter in Hin as [Hin _].
      cbn [trap_getOwnPropertyDescriptor getOwnPropertyDescriptor] in Hin. by rewrite Hown in Hin.
    + intros w'. unfold getClientEnvScript, prefixes_of.
      destruct (isClient w'); [done |].
      rewrite (Hget w' (VStrArr prefixes)); [done |].
      cbn [get_property]. by rewrite Hown.
  - intros Hfresh.
    assert (own_lookup (target px) "__clientSafePrefixes__" = None) as Hown.
    { rewrite Htarget. unfold addEnvAccessors, defineProperties. cbn [fold_left fst snd].
      repeat (rewrite own_lookup_defineProperty_ne by done).
      destruct (own_lookup res "__clientSafePrefixes__") eqn:E; [| done].
      destruct Hfresh. apply (run_result_keys w env options). fold res. by rewrite E. }
    split; [exact Hown |].
    intros w'. unfold getClientEnvScript, prefixes_of.
    destruct (isClient w'); [done |].
    rewrite (Hget w' VUndefined); [done |].
    cbn [get_property]. by rewrite Hown.
Qed.

(** The bootstrap scenario with the safe prefix configured: the generator
    finds the retained list. *)
Lemma C9_witness :
  fst (zenv (backend_world public_and_secret_source) public_and_secret
         (with_prefixes ["PUBLIC_"])) = ZenvReturn public_and_secret_env
  /\ getClientEnvScript (backend_world public_and_secret_source) public_and_secret_env None
     = getClientEnvScript (backend_world public_and_secret_source) public_and_secret_env
         (Some ["PUBLIC_"]).
Proof.
  split; [reflexivity |].
  exact (proj2 (proj2 (C9_retained_prefixes (backend_world public_and_secret_source)
                         public_and_secret (with_prefixes ["PUBLIC_"]) public_and_secret_env
                         eq_refl))
           (backend_world public_and_secret_source)).
Defined.

(** ** Writes, redefinitions and deletes (C5) *)

Lemma prefix_refl (s : string) : String.prefix s s = true.
Proof. induction s as [|c s IH]; simpl; [done |]. by destruct (ascii_dec c c). Qed.

Lemma includes_unfold (hay needle : string) :
  includes hay needle =
  String.prefix needle hay
  || match hay with
     | EmptyString => false
     | String _ rest => includes rest needle
     end.
Proof. by destruct hay. Qed.

Lemma includes_append (a s : string) : includes (a +:+ s) s = true.
Proof.
  induction a as [|c a IH].
  - change ("" +:+ s) with s. by rewrite includes_unfold, prefix_refl.
  - change (String c a +:+ s) with (String c (a +:+ s)).
    rewrite includes_unfold, IH. apply orb_true_r.
Qed.

(** Every write and every redefinition throws a [TypeError] naming the key,
    whatever the proxy's options, and leaves the proxy as it was. *)
Lemma write_always_throws (px : Proxy) (p : PropKey) (v : value) :
  exists msg, Proxy_set px p v = (Throw (TypeError msg), px)
              /\ includes msg (String_of p) = true.
Proof. eexists. split; [reflexivity | apply includes_append]. Qed.

Lemma redefinition_always_throws (px : Proxy) (p : PropKey) (d : DescInit) :
  exists msg, Proxy_defineProperty px p d = (Throw (TypeError msg), px)
              /\ includes msg (String_of p) = true.
Proof. eexists. split; [reflexivity | apply includes_append]. Qed.

(** A delete never changes the proxy, and it reports success for every key
    that is not a non-configurable own property of the target. *)
Lemma delete_leaves_proxy (px : Proxy) (p : PropKey) : snd (Proxy_delete px p) = px.
Proof.
  unfold Proxy_delete. simpl.
  destruct (getOwnPropertyDescriptor (target px) p) as [d|]; [| done].
  by destruct (pd_configurable d).
Qed.

Lemma delete_of_configurable (px : Proxy) (p : PropKey) :
  (forall d, getOwnPropertyDescriptor (target px) p = Some d -> pd_configurable d = true) ->
  Proxy_delete px p = (Return true, px).
Proof.
  intros Hconf. unfold Proxy_delete. simpl.
  destruct (getOwnPropertyDescriptor (target px) p) as [d|] eqn:E; [| done].
  by rewrite (Hconf d eq_refl).
Qed.

(** A property that is still enumerable after a non-enumerable definition
    is not the one that was defined. *)
Lemma enumerable_after_define (o : JsObj) (k' : string) (i : DescInit) (k : string)
    (d : PropDesc) :
  di_enumerable i = Some false ->
  own_lookup (defineProperty o k' i) k = Some d -> pd_enumerable d = true ->
  own_lookup o k = Some d.
Proof.
  intros Hi Hd Hen. destruct (decide (k' = k)) as [-> | Hne].
  - rewrite own_lookup_defineProperty_eq in Hd. injection Hd as <-.
    unfold defined_desc in Hen. rewrite Hi in Hen. by destruct (own_lookup o k).
  - by rewrite own_lookup_defineProperty_ne in Hd.
Qed.

Lemma assign_ordinary (o : JsObj) (k : string) (v : value) :
  ordinary o -> ordinary (assign o k v).
Proof.
  intros Ho k' d. destruct (decide (k = k')) as [<- | Hne].
  - rewrite own_lookup_assign_eq. unfold assigned_desc.
    destruct (own_lookup o k) as [d0|] eqn:E; intros [= <-]; [| done].
    exact (Ho k d0 E).
  - rewrite own_lookup_assign_ne by done. apply Ho.
Qed.

(** The resolver stores ordinary properties only. *)
Lemma result_ordinary (w : World) (specs : ZenvSpec) (env : PlainObj) (options : ZenvOptions) :
  ordinary (result (validateSpecs w specs env options)).
Proof.
  unfold validateSpecs.
  assert (ordinary (result (mkResolution [] ∅ [] []))) as Hinit by (by intros k d).
  revert Hinit. generalize (mkResolution [] ∅ [] []).
  induction specs as [|entry specs IH]; intros st Hst; [done |].
  cbn [fold_left]. apply IH. rewrite step_result.
  destruct (key_outcome w env options entry); try done.
  by apply assign_ordinary.
Qed.

(** On a returned environment, a delete of any enumerable key, that is of
    any resolved key, reports success and changes nothing. *)
Lemma delete_of_resolved_key (w : World) (specs : ZenvSpec) (options : ZenvOptions)
    (px : Proxy) (k : string) :
  fst (zenv w specs options) = ZenvReturn px ->
  k ∈ Proxy_keys px ->
  Proxy_delete px (PStr k) = (Return true, px).
Proof.
  intros Hret Hk. apply zenv_returns in Hret.
  set (env := default (Runtime.env w) (opt_env options)) in *.
  pose proof (result_ordinary w specs env options) as Hord.
  set (res := result (validateSpecs w specs env options)) in *.
  assert (target px = attachClientSafePrefixes options (addEnvAccessors w res env))
    as Htarget by (by rewrite Hret).
  apply delete_of_configurable. intros d Hd.
  unfold Proxy_keys in Hk. apply list_elem_of_filter in Hk as [Hen _].
  cbn [trap_getOwnPropertyDescriptor getOwnPropertyDescriptor] in Hen, Hd.
  rewrite Hd in Hen. simpl in Hen.
  rewrite Htarget in Hd.
  assert (own_lookup (addEnvAccessors w res env) k = Some d) as Hd'.
  { unfold attachClientSafePrefixes in Hd.
    destruct (clientSafePrefixes options); [| done].
    by apply enumerable_after_define in Hd. }
  unfold addEnvAccessors, defineProperties in Hd'. cbn [fold_left fst snd] in Hd'.
  do 5 (apply enumerable_after_define in Hd'; [| done | done]).
  by destruct (Hord k d Hd') as (_ & _ & ?).
Qed.

(** C5, on the code.  The [deleteProperty] trap answers [true] for every
    key, but the five derived booleans are non-configurable own properties of
    the target, and the language rejects a [true] answer for such a key: on
    the environment returned for the empty spec, [delete env.isDev] throws a
    [TypeError] (and removes nothing). *)
Lemma C5_delete_of_derived_boolean_throws :
  match fst (zenv (backend_world []) [] no_options) with
  | ZenvReturn px =>
      trap_deleteProperty px (PStr "isDev") = true
      /\ own_lookup (target px) "isDev" = Some (mkDesc (VBool false) false false false)
      /\ Proxy_delete px (PStr "isDev") =
         (Throw (TypeError ("'deleteProperty' on proxy: trap returned truish for property "
                            +:+ "'isDev' which is non-configurable in the proxy target")), px)
  | _ => False
  end.
Proof. repeat split. Qed.

(** ** Keys the front-end skips *)

Lemma distinct_keys_entry (specs : ZenvSpec) (key : string) (e1 e2 : SpecEntry) :
  NoDup (map fst specs) -> (key, e1) ∈ specs -> (key, e2) ∈ specs -> e1 = e2.
Proof.
  induction specs as [|[k e] specs IH]; simpl; intros Hnd H1 H2.
  - by apply elem_of_nil in H1.
  - apply NoDup_cons in Hnd as [Hk Hnd].
    assert (forall e', (key, e') ∈ specs -> key ∈ map fst specs) as Hfst.
    { intros e' He'. apply list_elem_of_In, in_map_iff. exists (key, e').
      split; [done | by apply list_elem_of_In]. }
    apply elem_of_cons in H1 as [E1 | H1], H2 as [E2 | H2]; simplify_eq.
    + done.
    + destruct Hk. by apply (Hfst e2).
    + destruct Hk. by apply (Hfst e1).
    + by apply IH.
Qed.

(** A key whose entry the front-end test skips: its raw value is not read,
    its validator is not called, nothing is stored and no failure is recorded
    for it, and its metadata entry says [serverOnly = true]. *)
Lemma skipped_entry (w : World) (env : PlainObj) (options : ZenvOptions) (specs : ZenvSpec)
    (key : string) (s : Validator) :
  NoDup (map fst specs) -> (key, Schema s) ∈ specs -> shouldSkip w options key s = true ->
  let r := validateSpecs w specs env options in
  (EvReadRaw key ∉ events r)
  /\ (forall v, EvParse key v ∉ events r)
  /\ own_lookup (result r) key = None
  /\ (serverOnly <$> metadata r !! key) = Some (Some true)
  /\ errors r = flat_map (failures_of w env options)
                  (List.filter (fun entry => negb (String.eqb (fst entry) key)) specs).
Proof.
  intros Hnd Hin Hskip r.
  assert (forall e, e ∈ events r ->
            exists k, k <> key /\ (e = EvReadRaw k \/ exists v, e = EvParse k v)) as Hev.
  { unfold r, validateSpecs. rewrite run_events. simpl.
    intros e [[k entry] [Hentry He]]%list_elem_of_In%in_flat_map.
    apply list_elem_of_In in Hentry. unfold reads_of in He. simpl in He.
    destruct entry as [|s']; [done |].
    destruct (decide (k = key)) as [-> | Hne].
    - assert (Schema s' = Schema s) as [= ->] by by apply (distinct_keys_entry specs key).
      by rewrite Hskip in He.
    - exists k. split; [done |].
      destruct (shouldSkip w options k s'); [done |].
      destruct He as [<- | [<- | []]]; eauto. }
  split; [| split; [| split; [| split]]].
  - intros (k & Hne & [[= ->] | [v [=]]])%Hev. done.
  - intros v (k & Hne & [[=] | [v' [= -> _]]])%Hev. done.
  - unfold r. rewrite (run_result_at w env options specs key (Schema s)) by done.
    unfold key_outcome. simpl. by rewrite Hskip.
  - unfold r, validateSpecs.
    destruct (list_elem_of_split _ _ Hin) as (l1 & l2 & ->).
    rewrite map_app in Hnd. simpl in Hnd.
    apply NoDup_app in Hnd as (_ & _ & [Hl2 _]%NoDup_cons).
    rewrite fold_left_app. cbn [fold_left].
    rewrite run_metadata_other by done.
    simpl. rewrite Hskip. simpl. by rewrite lookup_insert_eq.
  - unfold r, validateSpecs. rewrite run_errors. simpl.
    clear r Hev. induction specs as [|[k entry] specs IH]; [done |].
    simpl. apply NoDup_cons in Hnd as [Hk Hnd].
    apply elem_of_cons in Hin as [[= <- <-] | Hin].
    + rewrite String.eqb_refl. simpl.
      unfold failures_of at 1, key_outcome. simpl. rewrite Hskip. simpl.
      clear IH. induction specs as [|[k' entry'] specs IH]; [done |].
      simpl in *. apply not_elem_of_cons in Hk as [Hne Hk].
      apply NoDup_cons in Hnd as [_ Hnd].
      apply String.eqb_neq in Hne. rewrite String.eqb_sym in Hne. rewrite Hne. simpl.
      by rewrite IH.
    + assert (k <> key) as Hne.
      { intros ->. destruct Hk. apply list_elem_of_In, in_map_iff.
        exists (key, Schema s). split; [done | by apply list_elem_of_In]. }
      apply String.eqb_neq in Hne. rewrite Hne. simpl. by rewrite IH.
Qed.

(** With [strict] left on, a key the front-end skipped cannot be read from
    the returned environment, in whatever world the read happens: it is
    absent from the wrapped object, and the not-found test comes first. *)
Lemma skipped_key_not_found (w w' : World) (specs : ZenvSpec) (options : ZenvOptions)
    (key : string) (s : Validator) (px : Proxy) :
  NoDup (map fst specs) -> (key, Schema s) ∈ specs ->
  shouldSkip w options key s = true ->
  strict options <> Some false ->
  PStr key ∉ inspectables -> key ∉ accessorProps ->
  fst (zenv w specs options) = ZenvReturn px ->
  Proxy_get w' px (PStr key)
  = Throw (ReferenceError ("[zenv] Environment variable not found: " +:+ key)).
Proof.
  intros Hnd Hin Hskip Hstrict Hinsp Hacc Hret. apply zenv_returns in Hret.
  set (env := default (Runtime.env w) (opt_env options)) in *.
  destruct (skipped_entry w env options specs key s Hnd Hin Hskip) as (_ & _ & Hnone & _).
  set (res := result (validateSpecs w specs env options)) in *.
  assert (own_lookup (target px) key = None) as Hown.
  { rewrite Hret. cbn [target createProtectiveProxy].
    assert (own_lookup (addEnvAccessors w res env) key = None) as Hacc'.
    { unfold addEnvAccessors, defineProperties. cbn [fold_left fst snd].
      rewrite !own_lookup_defineProperty_ne; [done | ..];
        intros <-; apply Hacc; by_evaluation. }
    unfold attachClientSafePrefixes. destruct (clientSafePrefixes options); [| done].
    rewrite own_lookup_defineProperty_ne; [done |].
    intros <-. apply Hinsp. by_evaluation. }
  assert (px_strict px = true) as Hs.
  { rewrite Hret. cbn [px_strict createProtectiveProxy].
    destruct (strict options) as [[|]|]; done. }
  assert (mem_string key accessorProps = false) as Hmem.
  { destruct (mem_string key accessorProps) eqn:E; [| done].
    destruct Hacc. unfold mem_string in E.
    apply existsb_exists in E as (a & Ha & ->%String.eqb_eq).
    by apply list_elem_of_In. }
  unfold Proxy_get, trap_get. cbn [String_of has_property].
  rewrite bool_decide_eq_false_2 by done.
  rewrite Hmem, Hown, Hs.
  by rewrite bool_decide_eq_false_2 by (by intros [? ?]).
Qed.

(** ** Hidden keys on the front-end (C2, C3) *)

(** C2, on the code.  In a browser, with the spec [{SECRET: required
    string}], no safe prefixes and [onClientAccessError = "ignore"]: the
    resolver records no failure, reads no raw value and calls no validator,
    and stores nothing under [SECRET]; the later read of [SECRET] then finds
    the key absent from the wrapped object and, [strict] being [true] by
    default, throws the not-found [ReferenceError] before the exposure check
    is reached. *)
Lemma C2_read_of_skipped_key_throws :
  match zenv browser_world [("SECRET", Schema required_string)] ignore_access_errors with
  | (ZenvReturn px, events) =>
      events = []
      /\ own_lookup (target px) "SECRET" = None
      /\ (serverOnly <$> px_metadata px !! "SECRET") = Some (Some true)
      /\ px_strict px = true
      /\ Proxy_get browser_world px (PStr "SECRET")
         = Throw (ReferenceError "[zenv] Environment variable not found: SECRET")
  | _ => False
  end.
Proof. repeat split. Qed.

(** C3, on the code.  In a browser, a key that matches a server-only prefix
    and whose client configuration says [expose: true] is not skipped: its raw
    value is read, its validator is called and fails on the missing value,
    and only then is the metadata recorded with [serverOnly = true].  The
    front-end test looks at the safe prefixes and at [expose] only. *)
Lemma C3_server_only_key_is_validated :
  startsWithAny "SERVER_X" ["SERVER_"] = true
  /\ shouldSkip browser_world server_only_prefix "SERVER_X" exposed_string = false
  /\ events (validateSpecs browser_world [("SERVER_X", Schema exposed_string)] []
               server_only_prefix)
     = [EvReadRaw "SERVER_X"; EvParse "SERVER_X" VUndefined]
  /\ errors (validateSpecs browser_world [("SERVER_X", Schema exposed_string)] []
               server_only_prefix)
     = [failure_record "SERVER_X" (CaughtZod (mkZodError [missing_issue]))]
  /\ (serverOnly <$> metadata (validateSpecs browser_world
                                 [("SERVER_X", Schema exposed_string)] []
                                 server_only_prefix) !! "SERVER_X") = Some (Some true).
Proof. repeat split. Qed.

(** ** The client-side transform (C10) *)

(** In every read, a recorded call of the transform has the value about to
    be returned as its input, and that value is not [undefined]. *)
Lemma transform_inputs_defined (w : World) (px : Proxy) (prop : PropKey) (k : string)
    (u : value) :
  EvTransform k u ∈ snd (trap_get w px prop) ->
  u = client_value w px prop /\ u <> VUndefined.
Proof.
  unfold trap_get.
  repeat case_match; simpl; intros Hin;
    try (by apply elem_of_nil in Hin);
    apply list_elem_of_singleton in Hin; try discriminate.
  injection Hin as -> ->. split; [done |].
  intros Hu. match goal with H : is_defined _ = true |- _ => by rewrite Hu in H end.
Qed.

(** C10.  On a front-end read that reaches an exposed key, the transform
    is called exactly when the value about to be returned, client defaults
    included, is not [undefined] and a transform is configured; the read then
    returns what the transform returns.  When that value is [undefined] the
    read returns [undefined] and the transform is not called.  So no call of
    the transform has [undefined] as its input. *)
Theorem C10_transform_only_on_defined_values (w : World) (px : Proxy) (prop : PropKey) :
  isClient w = true ->
  prop ∉ inspectables ->
  mem_string (String_of prop) accessorProps = false ->
  negb (has_property (target px) prop) && px_strict px = false ->
  isExposed (px_metadata px !! String_of prop) = true ->
  let value := client_value w px prop in
  trap_get w px prop =
    match value, transform_of px prop with
    | VUndefined, _ => (Return VUndefined, no_events)
    | _, Some f => (Return (f value), [EvTransform (String_of prop) value])
    | _, None => (Return value, no_events)
    end
  /\ forall k u, EvTransform k u ∈ snd (trap_get w px prop) -> u <> VUndefined.
Proof.
  intros Hclient Hinsp Hacc Hfound Hexposed value. split.
  - unfold trap_get, transform_of.
    rewrite bool_decide_eq_false_2 by done.
    rewrite Hacc, Hfound, Hclient, Hexposed. cbn [negb]. fold value.
    destruct value; cbn [is_defined]; try done;
      by destruct (((px_metadata px !! String_of prop) ≫= client) ≫= transform).
  - intros k u Hin. by destruct (transform_inputs_defined w px prop k u Hin).
Qed.

(** A read of [API_HOST] in a browser goes through the transform. *)
Lemma C10_witness :
  isClient browser_world = true
  /\ trap_get browser_world api_host_proxy (PStr "API_HOST")
     = (Return (VStr "https://api.example.com"),
        [EvTransform "API_HOST" (VStr "api.example.com")]).
Proof.
  split; [reflexivity |].
  assert (PStr "API_HOST" ∉ inspectables) as Hinsp by by_evaluation.
  exact (proj1 (C10_transform_only_on_defined_values browser_world api_host_proxy
                  (PStr "API_HOST") eq_refl Hinsp eq_refl eq_refl eq_refl)).
Defined.

(** ** The bootstrap script (C8) *)

Section CloseTags.

(** Lowering leaves the three punctuation marks of the tag alone, and
    nothing else becomes one of them. *)
Lemma lower_punctuation (c p : ascii) :
  p ∈ ["<"; "/"; ">"; ";"; "\"]%char -> lower c = p -> c = p.
Proof.
  intros Hp Hc.
  repeat (apply elem_of_cons in Hp as [-> | Hp]); [ .. | by apply elem_of_nil in Hp ];
    destruct c as [[] [] [] [] [] [] [] []]; vm_compute in Hc; congruence.
Qed.

Lemma prefix_ci_cons (p : ascii) (pat : string) (c : ascii) (s : string) :
  prefix_ci (String p pat) (String c s) = Ascii.eqb (lower c) p && prefix_ci pat s.
Proof. reflexivity. Qed.

Lemma has_close_tag_unfold (s : string) :
  has_close_tag s =
  prefix_ci close_tag s
  || match s with
     | EmptyString => false
     | String _ rest => has_close_tag rest
     end.
Proof. by destruct s. Qed.

Lemma prefix_ci_cons_inv (p : ascii) (pat s : string) :
  prefix_ci (String p pat) s = true ->
  exists c s', s = String c s' /\ lower c = p /\ prefix_ci pat s' = true.
Proof.
  destruct s as [|c s']; [done |].
  rewrite prefix_ci_cons. intros [Hc%Ascii.eqb_eq Hs]%andb_prop. eauto.
Qed.

(** The shape of a string that starts with a match. *)
Lemma match_shape (s : string) :
  prefix_ci close_tag s = true ->
  exists c1 c2 c3 c4 c5 c6 rest,
    s = String "<" (String "/" (String c1 (String c2 (String c3 (String c4
          (String c5 (String c6 (String ">" rest))))))))
    /\ lower c1 = "s"%char /\ lower c2 = "c"%char /\ lower c3 = "r"%char
    /\ lower c4 = "i"%char /\ lower c5 = "p"%char /\ lower c6 = "t"%char.
Proof.
  unfold close_tag. intros H.
  apply prefix_ci_cons_inv in H as (a0 & s0 & -> & Ha0 & H).
  apply prefix_ci_cons_inv in H as (a1 & s1 & -> & Ha1 & H).
  apply prefix_ci_cons_inv in H as (c1 & s2 & -> & H1 & H).
  apply prefix_ci_cons_inv in H as (c2 & s3 & -> & H2 & H).
  apply prefix_ci_cons_inv in H as (c3 & s4 & -> & H3 & H).
  apply prefix_ci_cons_inv in H as (c4 & s5 & -> & H4 & H).
  apply prefix_ci_cons_inv in H as (c5 & s6 & -> & H5 & H).
  apply prefix_ci_cons_inv in H as (c6 & s7 & -> & H6 & H).
  apply prefix_ci_cons_inv in H as (a8 & rest & -> & Ha8 & _).
  exists c1, c2, c3, c4, c5, c6, rest.
  apply (lower_punctuation a0 "<") in Ha0 as ->; [| by_evaluation].
  apply (lower_punctuation a1 "/") in Ha1 as ->; [| by_evaluation].
  apply (lower_punctuation a8 ">") in Ha8 as ->; [| by_evaluation].
  done.
Qed.

(** One step of the replacement on a match: a backslash goes in front of
    the slash and the scan resumes after the tag. *)
Lemma escape_match (fuel : nat) (s : string) :
  prefix_ci close_tag s = true ->
  exists c1 c2 c3 c4 c5 c6 rest,
    s = String "<" (String "/" (String c1 (String c2 (String c3 (String c4
          (String c5 (String c6 (String ">" rest))))))))
    /\ lower c1 = "s"%char /\ lower c2 = "c"%char /\ lower c3 = "r"%char
    /\ lower c4 = "i"%char /\ lower c5 = "p"%char /\ lower c6 = "t"%char
    /\ escape_close_tags_from (S fuel) s =
       String "<" (String "\" (String "/" (String c1 (String c2 (String c3 (String c4
         (String c5 (String c6 (String ">" (escape_close_tags_from fuel rest)))))))))).
Proof.
  intros H. destruct (match_shape s H) as (c1 & c2 & c3 & c4 & c5 & c6 & rest & -> & Hl).
  exists c1, c2, c3, c4, c5, c6, rest. split; [done |].
  repeat (split; [tauto |]).
  cbn [escape_close_tags_from]. rewrite H.
  change (String.length close_tag) with 9%nat. reflexivity.
Qed.

Lemma escape_no_match (fuel : nat) (c : ascii) (rest : string) :
  prefix_ci close_tag (String c rest) = false ->
  escape_close_tags_from (S fuel) (String c rest)
  = String c (escape_close_tags_from fuel rest).
Proof. intros H. cbn [escape_close_tags_from]. by rewrite H. Qed.

(** A pattern without ["<"] that matches at the head of the output matches
    at the head of the input. *)
Lemma prefix_ci_escape (pat : string) :
  lacks "<" pat = true ->
  forall fuel s,
    prefix_ci pat (escape_close_tags_from fuel s) = true -> prefix_ci pat s = true.
Proof.
  induction pat as [|p pat IH]; [done |].
  cbn [lacks]. intros [Hp Hpat]%andb_prop fuel s.
  destruct fuel as [|fuel]; [done |].
  destruct s as [|c rest]; [done |].
  destruct (prefix_ci close_tag (String c rest)) eqn:Hm.
  - destruct (escape_match fuel _ Hm) as (c1 & c2 & c3 & c4 & c5 & c6 & r & _ & _ & _ & _
                                          & _ & _ & _ & ->).
    rewrite prefix_ci_cons. intros [Hlt%Ascii.eqb_eq _]%andb_prop.
    vm_compute in Hlt. subst p. done.
  - rewrite escape_no_match by done. rewrite !prefix_ci_cons.
    intros [-> Hrest]%andb_prop. by rewrite (IH Hpat fuel rest Hrest).
Qed.

(** A character that is not ["<"] starts no tag, and neither does a ["<"]
    followed by a backslash. *)
Lemma has_close_tag_skip (c : ascii) (s : string) :
  Ascii.eqb (lower c) "<" = false -> has_close_tag (String c s) = has_close_tag s.
Proof.
  intros Hc. rewrite has_close_tag_unfold. unfold close_tag.
  by rewrite prefix_ci_cons, Hc.
Qed.

Lemma has_close_tag_escaped (s : string) :
  has_close_tag (String "<" (String "\" s)) = has_close_tag s.
Proof. rewrite has_close_tag_unfold. by rewrite has_close_tag_skip. Qed.

(** The output of the replacement has no closing script tag left. *)
Lemma escape_from_no_close_tag (fuel : nat) :
  forall s, (String.length s <= fuel)%nat ->
            has_close_tag (escape_close_tags_from fuel s) = false.
Proof.
  induction fuel as [|fuel IH]; intros s Hlen.
  - destruct s; [done | simpl in Hlen; lia].
  - destruct s as [|c rest]; [done |].
    destruct (prefix_ci close_tag (String c rest)) eqn:Hm.
    + destruct (escape_match fuel _ Hm)
        as (c1 & c2 & c3 & c4 & c5 & c6 & r & Hs & H1 & H2 & H3 & H4 & H5 & H6 & ->).
      assert (has_close_tag (escape_close_tags_from fuel r) = false) as Hrest.
      { apply IH. rewrite Hs in Hlen. simpl in Hlen. lia. }
      rewrite has_close_tag_escaped.
      rewrite !has_close_tag_skip by (by rewrite ?H1, ?H2, ?H3, ?H4, ?H5, ?H6).
      exact Hrest.
    + rewrite escape_no_match by done.
      rewrite has_close_tag_unfold, IH by (simpl in Hlen; lia).
      rewrite orb_false_r.
      destruct (prefix_ci close_tag (String c (escape_close_tags_from fuel rest))) eqn:E;
        [| done].
      unfold close_tag in E, Hm. rewrite prefix_ci_cons in E, Hm.
      apply andb_prop in E as [Ec E]. rewrite Ec in Hm.
      apply prefix_ci_escape in E; [| done]. rewrite E in Hm. discriminate Hm.
Qed.

Lemma escape_no_close_tag (s : string) : has_close_tag (escape_close_tags s) = false.
Proof. by apply escape_from_no_close_tag. Qed.

(** Neither the text in front of the JSON nor the semicolon after it can
    take part in a tag. *)
Lemma prefix_ci_semicolon (pat : string) :
  lacks ";" pat = true ->
  forall s, prefix_ci pat (s +:+ ";") = prefix_ci pat s.
Proof.
  induction pat as [|p pat IH]; [by intros _ [|]|].
  cbn [lacks]. intros [Hp Hpat]%andb_prop [|c s].
  - change ("" +:+ ";") with (String ";" ""). rewrite prefix_ci_cons.
    change (lower ";") with ";"%char.
    rewrite Ascii.eqb_sym. by destruct (Ascii.eqb p ";").
  - change (String c s +:+ ";") with (String c (s +:+ ";")).
    by rewrite !prefix_ci_cons, IH.
Qed.

Lemma has_close_tag_semicolon (s : string) :
  has_close_tag (s +:+ ";") = has_close_tag s.
Proof.
  induction s as [|c s IH].
  - reflexivity.
  - change (String c s +:+ ";") with (String c (s +:+ ";")).
    rewrite (has_close_tag_unfold (String c s)), (has_close_tag_unfold (String c (s +:+ ";"))).
    rewrite IH. f_equal.
    change (String c (s +:+ ";")) with (String c s +:+ ";").
    by apply prefix_ci_semicolon.
Qed.

Lemma has_close_tag_after (pre s : string) :
  lacks "<" pre = true -> has_close_tag (pre +:+ s) = has_close_tag s.
Proof.
  induction pre as [|c pre IH]; [done |].
  cbn [lacks]. intros [Hc Hpre]%andb_prop.
  change (String c pre +:+ s) with (String c (pre +:+ s)).
  rewrite has_close_tag_unfold, IH by done.
  unfold close_tag. rewrite prefix_ci_cons.
  destruct (Ascii.eqb (lower c) "<") eqn:E; [| done].
  apply Ascii.eqb_eq, (lower_punctuation c "<") in E; [| by_evaluation].
  subst c. done.
Qed.

Lemma script_of_no_close_tag (o : PlainObj) : has_close_tag (script_of o) = false.
Proof.
  unfold script_of.
  rewrite has_close_tag_after by reflexivity.
  rewrite has_close_tag_semicolon. apply escape_no_close_tag.
Qed.

End CloseTags.

Section Backend.

Variables (w : World) (env : Proxy).
Hypothesis backend : isClient w = false.

(** On the backend a read of an own key returns the stored value. *)
Lemma backend_read (k : string) (d : PropDesc) :
  own_lookup (target env) k = Some d -> Proxy_get w env (PStr k) = Return (pd_value d).
Proof using backend.
  intros Hown. unfold Proxy_get, trap_get.
  assert (get_property (target env) (PStr k) = pd_value d) as Hget
    by (cbn [get_property]; by rewrite Hown).
  assert (has_property (target env) (PStr k) = true) as Hhas.
  { cbn [has_property]. rewrite Hown. by apply bool_decide_eq_true_2. }
  rewrite Hget, Hhas, backend.
  by repeat case_match.
Qed.

Lemma Proxy_keys_own (k : string) :
  k ∈ Proxy_keys env ->
  exists d, own_lookup (target env) k = Some d /\ pd_enumerable d = true.
Proof.
  unfold Proxy_keys. intros [Hen _]%list_elem_of_filter.
  cbn [trap_getOwnPropertyDescriptor getOwnPropertyDescriptor] in Hen.
  destruct (own_lookup (target env) k) as [d|]; [eauto | done].
Qed.

Lemma collect_backend (prefixes keys : list string) (clientEnv : PlainObj) :
  (forall k, k ∈ keys -> is_Some (own_lookup (target env) k)) ->
  collect w env (PrefixArray prefixes) keys clientEnv
  = Return (safe_pairs env prefixes keys clientEnv).
Proof using backend.
  revert clientEnv. induction keys as [|key keys IH]; intros clientEnv Hown; [done |].
  cbn [collect isClientSafe safe_pairs fold_left].
  assert (forall k, k ∈ keys -> is_Some (own_lookup (target env) k)) as Hown'.
  { intros k Hk. apply Hown. by right. }
  destruct ((0 <? length prefixes)%nat && existsb _ prefixes); [| by apply IH].
  destruct (Hown key) as [d Hd]; [by left |].
  rewrite (backend_read key d Hd). cbn [get_property]. rewrite Hd.
  by apply IH.
Qed.

Lemma getClientEnvScript_backend (prefixes : list string) :
  getClientEnvScript w env (Some prefixes)
  = Return (script_of (safe_pairs env prefixes (Proxy_keys env) [])).
Proof using backend.
  unfold getClientEnvScript. rewrite backend. cbn [prefixes_of].
  rewrite collect_backend; [done |].
  intros k Hk. destruct (Proxy_keys_own k Hk) as (d & -> & _). eauto.
Qed.

Lemma plain_assign_keys (o : PlainObj) (k : string) (v : value) (k' : string) :
  k' ∈ map fst (plain_assign o k v) -> k' ∈ map fst o \/ k' = k.
Proof.
  induction o as [|[k0 v0] o IH]; simpl.
  - intros ->%list_elem_of_singleton. by right.
  - destruct (String.eqb k0 k); simpl.
    + intros H. by left.
    + intros [-> | H]%elem_of_cons; [left; by left |].
      destruct (IH H) as [? | ?]; [left; by right | by right].
Qed.

(** Only keys that start with one of the prefixes are collected. *)
Lemma safe_pairs_keys (prefixes keys : list string) (clientEnv : PlainObj) (k : string) :
  k ∈ map fst (safe_pairs env prefixes keys clientEnv) ->
  k ∈ map fst clientEnv \/ (k ∈ keys /\ startsWithAny k prefixes = true).
Proof.
  revert clientEnv. induction keys as [|key keys IH]; intros clientEnv; [by left |].
  cbn [safe_pairs fold_left].
  destruct ((0 <? length prefixes)%nat && existsb _ prefixes) eqn:Hsafe.
  - apply andb_prop in Hsafe as [_ Hsafe].
    destruct (is_defined (get_property (target env) (PStr key))).
    + intros [Hk | [Hk ?]]%IH; [| right; split; [by right | done]].
      apply plain_assign_keys in Hk as [Hk | ->]; [by left |].
      right. split; [by left | done].
    + intros [Hk | [Hk ?]]%IH; [by left | right; split; [by right | done]].
  - intros [Hk | [Hk ?]]%IH; [by left | right; split; [by right | done]].
Qed.

End Backend.

(** C8.  For the environment resolved on the backend from the spec
    [{PUBLIC_X, SECRET}] and the source [{PUBLIC_X: "v", SECRET: "s"}], the
    generator called in backend context with the prefix list [["PUBLIC_"]]
    returns exactly the one assignment to [window.__ZENV_CLIENT__] of the
    object holding [PUBLIC_X] alone; neither ["SECRET"] nor ["s"] occurs in
    it.  In general, a backend call returns the assignment of an object whose
    keys are enumerable keys of the environment that start with one of the
    prefixes, and no script the generator returns contains a closing script
    tag, in any letter case. *)
Theorem C8_bootstrap_script :
  (forall w, isClient w = false ->
     match fst (zenv (backend_world public_and_secret_source) public_and_secret no_options) with
     | ZenvReturn env => getClientEnvScript w env (Some ["PUBLIC_"]) = Return public_x_script
     | _ => False
     end)
  /\ includes public_x_script "SECRET" = false
  /\ includes public_x_script "s" = false
  /\ (forall w env prefixes, isClient w = false ->
        exists clientEnv,
          getClientEnvScript w env (Some prefixes) = Return (script_of clientEnv)
          /\ forall k, k ∈ map fst clientEnv ->
                       k ∈ Proxy_keys env /\ startsWithAny k prefixes = true)
  /\ (forall w env prefixes script,
        getClientEnvScript w env prefixes = Return script -> has_close_tag script = false).
Proof.
  split; [| split; [reflexivity | split; [reflexivity | split]]].
  - intros w Hw.
    set (z := fst (zenv _ _ _)). vm_compute in z. subst z. cbv beta iota.
    by rewrite getClientEnvScript_backend.
  - intros w env prefixes Hw. eexists. split; [by apply getClientEnvScript_backend |].
    intros k [Hk | Hk]%safe_pairs_keys; [by apply elem_of_nil in Hk | done].
  - intros w env prefixes script. unfold getClientEnvScript.
    destruct (isClient w).
    + destruct (window w) as [[injected|]|]; intros [= <-];
        [apply script_of_no_close_tag | done | done].
    + destruct (prefixes_of w env prefixes); [| done].
      destruct (collect _ _ _ _ _); [| done].
      intros [= <-]. apply script_of_no_close_tag.
Qed.

(** * Further properties of the code *)

(** ** What the resolver records for a validated key *)

Lemma startsWithAny_guarded (key : string) (prefixes : list string) :
  (0 <? length prefixes)%nat && startsWithAny key prefixes = startsWithAny key prefixes.
Proof. by destruct prefixes. Qed.

Lemma validated_key_metadata (w : World) (env : PlainObj) (options : ZenvOptions)
    (specs : ZenvSpec) (key : string) (s : Validator) :
  NoDup (map fst specs) -> (key, Schema s) ∈ specs -> shouldSkip w options key s = false ->
  exists m,
    metadata (validateSpecs w specs env options) !! key = Some m
    /\ serverOnly m = Some (server_only_key options key)
    /\ autoExposed m = Some (negb (server_only_key options key) && client_safe_key options key)
    /\ client m =
       (fun c => if server_only_key options key
                 then mkClient false (transform c) (client_default c) (client_devDefault c)
                 else c) <$> client_of s.
Proof.
  intros Hnd Hin Hskip. unfold validateSpecs.
  destruct (list_elem_of_split _ _ Hin) as (l1 & l2 & ->).
  rewrite map_app in Hnd. simpl in Hnd.
  apply NoDup_app in Hnd as (_ & _ & [Hl2 _]%NoDup_cons).
  rewrite fold_left_app. cbn [fold_left].
  rewrite run_metadata_other by done.
  unfold server_only_key, client_safe_key, client_of.
  simpl. rewrite Hskip. unfold validateSingleSpec.
  rewrite !startsWithAny_guarded.
  destruct (parse s w (plain_get env key)); simpl; rewrite lookup_insert_eq;
    eexists; (split; [reflexivity |]);
    destruct (startsWithAny key (default [] (serverOnlyPrefixes options)));
    destruct (getMetadata s) as [[? [cfg|] ? ?]|]; simpl;
    rewrite ?startsWithAny_guarded; done.
Qed.

(** With distinct keys, the metadata stored for a key whose entry is a
    recognized validator keeps the validator's own fields and adds the two
    flags.  For a validated key: [serverOnly] says whether the key starts with
    a server-only prefix, [autoExposed] whether it starts with a safe prefix
    and with no server-only one, and the client configuration is the
    validator's, with [expose] forced to [false] under a server-only prefix.
    For a key the front-end skipped: [serverOnly] is [true] and the rest is
    the validator's, untouched. *)
Theorem metadata_of_schema_key (w : World) (env : PlainObj) (options : ZenvOptions)
    (specs : ZenvSpec) (key : string) (s : Validator) :
  NoDup (map fst specs) -> (key, Schema s) ∈ specs ->
  exists m,
    metadata (validateSpecs w specs env options) !! key = Some m
    /\ rest m = rest (spread (getMetadata s))
    /\ if shouldSkip w options key s
       then serverOnly m = Some true
            /\ autoExposed m = autoExposed (spread (getMetadata s))
            /\ client m = client_of s
       else serverOnly m = Some (server_only_key options key)
            /\ autoExposed m
               = Some (negb (server_only_key options key) && client_safe_key options key)
            /\ client m =
               (fun c => if server_only_key options key
                         then mkClient false (transform c) (client_default c)
                                (client_devDefault c)
                         else c) <$> client_of s.
Proof.
  intros Hnd Hin. unfold validateSpecs.
  destruct (list_elem_of_split _ _ Hin) as (l1 & l2 & ->).
  rewrite map_app in Hnd. simpl in Hnd.
  apply NoDup_app in Hnd as (_ & _ & [Hl2 _]%NoDup_cons).
  rewrite fold_left_app. cbn [fold_left].
  rewrite run_metadata_other by done.
  unfold server_only_key, client_safe_key, client_of.
  simpl. destruct (shouldSkip w options key s); simpl.
  - rewrite lookup_insert_eq. eexists. split; [reflexivity |].
    by destruct (getMetadata s) as [[? [cfg|] ? ?]|].
  - unfold validateSingleSpec. rewrite !startsWithAny_guarded.
    destruct (parse s w (plain_get env key)); simpl; rewrite lookup_insert_eq;
      eexists; (split; [reflexivity |]);
      destruct (startsWithAny key (default [] (serverOnlyPrefixes options)));
      destruct (getMetadata s) as [[? [cfg|] ? ?]|]; simpl;
      rewrite ?startsWithAny_guarded; done.
Qed.

(** The exposed key of the server-only scenario, validated in a browser:
    its [expose] is forced to [false]. *)
Lemma metadata_of_schema_key_witness :
  NoDup (map fst [("SERVER_X", Schema exposed_string)])
  /\ exists m,
       metadata (validateSpecs browser_world [("SERVER_X", Schema exposed_string)] []
                   server_only_prefix) !! "SERVER_X" = Some m
       /\ serverOnly m = Some true
       /\ (expose <$> client m) = Some false.
Proof.
  assert (NoDup (map fst [("SERVER_X", Schema exposed_string)])) as Hnd by by_evaluation.
  split; [exact Hnd |].
  destruct (metadata_of_schema_key browser_world [] server_only_prefix
              [("SERVER_X", Schema exposed_string)] "SERVER_X" exposed_string Hnd
              (list_elem_of_here _ _)) as (m & Hm & _ & Hso & _ & Hc).
  exists m. split; [exact Hm | split; [exact Hso |]].
  by rewrite Hc.
Defined.

(** ** Reads from a returned environment *)

Lemma not_accessor (key : string) : key ∉ accessorProps -> mem_string key accessorProps = false.
Proof.
  intros Hacc. destruct (mem_string key accessorProps) eqn:E; [| done].
  destruct Hacc. unfold mem_string in E.
  apply existsb_exists in E as (a & Ha & ->%String.eqb_eq).
  by apply list_elem_of_In.
Qed.

(** Apart from the accessor names and the prefix field, the target of a
    returned environment holds what the resolver stored. *)
Lemma returned_target_lookup (w : World) (specs : ZenvSpec) (options : ZenvOptions)
    (px : Proxy) (key : string) :
  fst (zenv w specs options) = ZenvReturn px ->
  key ∉ accessorProps -> key <> "__clientSafePrefixes__" ->
  own_lookup (target px) key
  = own_lookup (result (validateSpecs w specs (default (Runtime.env w) (opt_env options))
                          options)) key.
Proof.
  intros Hret Hacc Hne. apply zenv_returns in Hret. rewrite Hret.
  cbn [target createProtectiveProxy].
  assert (forall o, own_lookup (attachClientSafePrefixes options o) key = own_lookup o key) as ->.
  { intros o. unfold attachClientSafePrefixes. destruct (clientSafePrefixes options); [| done].
    by rewrite own_lookup_defineProperty_ne. }
  unfold addEnvAccessors, defineProperties. cbn [fold_left fst snd].
  rewrite !own_lookup_defineProperty_ne; [done | ..]; intros <-; apply Hacc; by_evaluation.
Qed.

Lemma not_inspectable_name (key : string) :
  PStr key ∉ inspectables -> key <> "__clientSafePrefixes__".
Proof. intros Hinsp ->. apply Hinsp. by_evaluation. Qed.

(** On the backend, a read of a resolved key returns exactly what its
    validator produced, whatever the options, the metadata and the world in
    which the environment was built. *)
Theorem resolved_key_read_on_backend (w w' : World) (specs : ZenvSpec)
    (options : ZenvOptions) (key : string) (entry : SpecEntry) (v : value) (px : Proxy) :
  NoDup (map fst specs) -> (key, entry) ∈ specs ->
  key_outcome w (default (Runtime.env w) (opt_env options)) options (key, entry)
    = KeyResolved v ->
  key ∉ accessorProps -> key <> "__clientSafePrefixes__" ->
  fst (zenv w specs options) = ZenvReturn px ->
  isClient w' = false ->
  Proxy_get w' px (PStr key) = Return v.
Proof.
  intros Hnd Hin Hout Hacc Hne Hret Hback.
  pose proof (returned_target_lookup w specs options px key Hret Hacc Hne) as Hown.
  rewrite (run_result_at w _ options specs key entry Hnd Hin), Hout in Hown.
  by rewrite (backend_read w' px Hback key _ Hown).
Qed.

(** The secret of the bootstrap scenario, read on the backend. *)
Lemma resolved_key_read_on_backend_witness :
  fst (zenv (backend_world public_and_secret_source) public_and_secret no_options)
    = ZenvReturn (returned_env (backend_world public_and_secret_source) public_and_secret
                    no_options)
  /\ Proxy_get production_world
       (returned_env (backend_world public_and_secret_source) public_and_secret no_options)
       (PStr "SECRET") = Return (VStr "s").
Proof.
  split; [reflexivity |].
  assert (NoDup (map fst public_and_secret)) as Hnd by by_evaluation.
  assert (("SECRET", Schema required_string) ∈ public_and_secret) as Hin
    by (apply list_elem_of_further, list_elem_of_here).
  assert ("SECRET" ∉ accessorProps) as Hacc by by_evaluation.
  assert ("SECRET" <> "__clientSafePrefixes__") as Hne by done.
  exact (resolved_key_read_on_backend (backend_world public_and_secret_source)
           production_world public_and_secret no_options "SECRET" (Schema required_string)
           (VStr "s") _ Hnd Hin eq_refl Hacc Hne eq_refl eq_refl).
Defined.

(** Under [onError = "return"] the entry point never throws and never
    exits. *)
Lemma return_policy_returns (w : World) (specs : ZenvSpec) (options : ZenvOptions) :
  onError options = Some OnErrorReturn ->
  fst (zenv w specs options) = ZenvReturn (returned_env w specs options).
Proof.
  intros Hret. unfold zenv, returned_env. rewrite Hret. simpl.
  by destruct (0 <? length _)%nat.
Qed.

(** Under [onError = "return"] a key whose resolution failed is absent from
    the environment that is returned all the same: it is not enumerated, a
    read of it throws the not-found error while [strict] is on, and gives
    [undefined] on the backend when [strict] is off. *)
Theorem failed_key_is_absent (w : World) (specs : ZenvSpec) (options : ZenvOptions)
    (key : string) (entry : SpecEntry) (e : ZodError) :
  onError options = Some OnErrorReturn ->
  NoDup (map fst specs) -> (key, entry) ∈ specs ->
  key_outcome w (default (Runtime.env w) (opt_env options)) options (key, entry)
    = KeyFailed e ->
  key ∉ accessorProps -> PStr key ∉ inspectables ->
  let px := returned_env w specs options in
  fst (zenv w specs options) = ZenvReturn px
  /\ e ∈ errors (validateSpecs w specs (default (Runtime.env w) (opt_env options)) options)
  /\ (key ∉ Proxy_keys px)
  /\ (strict options <> Some false ->
      forall w', Proxy_get w' px (PStr key)
                 = Throw (ReferenceError ("[zenv] Environment variable not found: " +:+ key)))
  /\ (strict options = Some false ->
      forall w', isClient w' = false -> Proxy_get w' px (PStr key) = Return VUndefined).
Proof.
  intros Hpol Hnd Hin Hout Hacc Hinsp px.
  pose proof (return_policy_returns w specs options Hpol) as Hret. fold px in Hret.
  pose proof (returned_target_lookup w specs options px key Hret Hacc
                (not_inspectable_name key Hinsp)) as Hown.
  rewrite (run_result_at w _ options specs key entry Hnd Hin), Hout in Hown.
  split; [exact Hret | split; [| split; [| split]]].
  - unfold validateSpecs. rewrite run_errors. simpl.
    apply list_elem_of_In, in_flat_map. exists (key, entry).
    split; [by apply list_elem_of_In |]. unfold failures_of. rewrite Hout. by left.
  - unfold Proxy_keys. intros [Hen _]%list_elem_of_filter.
    cbn [trap_getOwnPropertyDescriptor getOwnPropertyDescriptor] in Hen.
    by rewrite Hown in Hen.
  - intros Hstrict w'. unfold Proxy_get, trap_get. cbn [String_of has_property].
    rewrite bool_decide_eq_false_2 by done.
    rewrite (not_accessor key Hacc), Hown.
    rewrite bool_decide_eq_false_2 by (by intros [? ?]).
    unfold px, returned_env. cbn [px_strict createProtectiveProxy].
    by destruct (strict options) as [[|]|].
  - intros Hstrict w' Hback. unfold Proxy_get, trap_get. cbn [String_of has_property get_property].
    rewrite bool_decide_eq_false_2 by done.
    rewrite (not_accessor key Hacc), Hown, Hback.
    rewrite bool_decide_eq_false_2 by (by intros [? ?]).
    unfold px, returned_env. cbn [px_strict createProtectiveProxy].
    by rewrite Hstrict.
Qed.

(** Three keys under the return policy: [API_KEY] failed and is absent. *)
Lemma failed_key_is_absent_witness :
  onError (only_onError OnErrorReturn) = Some OnErrorReturn
  /\ Proxy_get browser_world
       (returned_env (backend_world []) three_keys (only_onError OnErrorReturn))
       (PStr "API_KEY")
     = Throw (ReferenceError "[zenv] Environment variable not found: API_KEY").
Proof.
  split; [reflexivity |].
  assert (NoDup (map fst three_keys)) as Hnd by by_evaluation.
  assert (("API_KEY", Schema required_string) ∈ three_keys) as Hin
    by apply list_elem_of_here.
  assert ("API_KEY" ∉ accessorProps) as Hacc by by_evaluation.
  assert (PStr "API_KEY" ∉ inspectables) as Hinsp by by_evaluation.
  assert (strict (only_onError OnErrorReturn) <> Some false) as Hstrict by done.
  exact (proj1 (proj2 (proj2 (proj2
           (failed_key_is_absent (backend_world []) three_keys (only_onError OnErrorReturn)
              "API_KEY" (Schema required_string) _ eq_refl Hnd Hin eq_refl Hacc Hinsp))))
           Hstrict browser_world).
Defined.

(** ** Reads on the front-end *)

Lemma validated_key_exposure (w : World) (env : PlainObj) (options : ZenvOptions)
    (specs : ZenvSpec) (key : string) (s : Validator) :
  NoDup (map fst specs) -> (key, Schema s) ∈ specs -> shouldSkip w options key s = false ->
  isExposed (metadata (validateSpecs w specs env options) !! key) = exposed_key options key s.
Proof.
  intros Hnd Hin Hskip.
  destruct (validated_key_metadata w env options specs key s Hnd Hin Hskip)
    as (m & -> & Hso & Hauto & Hc).
  unfold isExposed, exposed_key. simpl. rewrite Hso, Hc, Hauto. simpl.
  destruct (server_only_key options key); [done |].
  by destruct (client_of s).
Qed.

(** A resolved entry was not skipped. *)
Lemma resolved_not_skipped (w : World) (env : PlainObj) (options : ZenvOptions)
    (key : string) (s : Validator) (v : value) :
  key_outcome w env options (key, Schema s) = KeyResolved v ->
  shouldSkip w options key s = false.
Proof. unfold key_outcome. simpl. by destruct (shouldSkip w options key s). Qed.

(** The front-end read of a resolved key, up to the exposure test. *)
Lemma front_end_read (w w' : World) (specs : ZenvSpec) (options : ZenvOptions)
    (key : string) (s : Validator) (v : value) :
  NoDup (map fst specs) -> (key, Schema s) ∈ specs ->
  key_outcome w (default (Runtime.env w) (opt_env options)) options (key, Schema s)
    = KeyResolved v ->
  key ∉ accessorProps -> PStr key ∉ inspectables ->
  isClient w' = true ->
  let px := returned_env w specs options in
  own_lookup (target px) key = Some (mkDesc v true true true)
  /\ trap_get w' px (PStr key) =
     if negb (exposed_key options key s) then
       match px_onClientAccessError px with
       | AccessThrow => (Throw (hidden_key_error key), no_events)
       | AccessWarn =>
           if isDevelopment w' then (Return VUndefined, [hidden_key_warning key])
           else (Return VUndefined, no_events)
       | AccessIgnore => (Return VUndefined, no_events)
       end
     else
       let value := client_value w' px (PStr key) in
       match is_defined value, (px_metadata px !! key ≫= client) ≫= transform with
       | true, Some f => (Return (f value), [EvTransform key value])
       | _, _ => (Return value, no_events)
       end.
Proof.
  intros Hnd Hin Hout Hacc Hinsp Hclient px.
  assert (own_lookup (target px) key = Some (mkDesc v true true true)) as Hown.
  { unfold px, returned_env. cbn [target createProtectiveProxy].
    assert (forall o, own_lookup (attachClientSafePrefixes options o) key = own_lookup o key)
      as ->.
    { intros o. unfold attachClientSafePrefixes. destruct (clientSafePrefixes options); [| done].
      rewrite own_lookup_defineProperty_ne; [done |]. intros <-. apply Hinsp. by_evaluation. }
    unfold addEnvAccessors, defineProperties. cbn [fold_left fst snd].
    rewrite !own_lookup_defineProperty_ne by (intros <-; apply Hacc; by_evaluation).
    by rewrite (run_result_at w _ options specs key (Schema s) Hnd Hin), Hout. }
  split; [exact Hown |].
  unfold trap_get. cbn [String_of has_property].
  rewrite bool_decide_eq_false_2 by done.
  rewrite (not_accessor key Hacc), Hown, Hclient.
  rewrite bool_decide_eq_true_2 by eauto. cbn [negb andb].
  unfold px at 1, returned_env at 1. cbn [px_metadata createProtectiveProxy].
  rewrite (validated_key_exposure w _ options specs key s Hnd Hin
             (resolved_not_skipped _ _ _ _ _ _ Hout)).
  reflexivity.
Qed.

(** A key resolved with a value and hidden from the front-end (a server-only
    prefix, [expose: false], or neither a client configuration nor a safe
    prefix) never gives its value to a front-end read.  What the read does is
    decided by the access policy, fixed when the environment was built
    ([onClientAccessError], else warn in development and ignore otherwise):
    "throw" raises an error naming the key; "warn" gives [undefined] and
    logs a warning only if the read happens in development; "ignore" gives
    [undefined] silently. *)
Theorem hidden_key_on_front_end (w w' : World) (specs : ZenvSpec) (options : ZenvOptions)
    (key : string) (s : Validator) (v : value) :
  NoDup (map fst specs) -> (key, Schema s) ∈ specs ->
  key_outcome w (default (Runtime.env w) (opt_env options)) options (key, Schema s)
    = KeyResolved v ->
  key ∉ accessorProps -> PStr key ∉ inspectables ->
  exposed_key options key s = false ->
  isClient w' = true ->
  let px := returned_env w specs options in
  trap_get w' px (PStr key) =
    match default (defaultClientAccessError w) (onClientAccessError options) with
    | AccessThrow => (Throw (hidden_key_error key), [])
    | AccessWarn => (Return VUndefined, if isDevelopment w' then [hidden_key_warning key] else [])
    | AccessIgnore => (Return VUndefined, [])
    end
  /\ (is_defined v = true -> Proxy_get w' px (PStr key) <> Return v).
Proof.
  intros Hnd Hin Hout Hacc Hinsp Hhidden Hclient px.
  destruct (front_end_read w w' specs options key s v Hnd Hin Hout Hacc Hinsp Hclient)
    as [_ Hget].
  fold px in Hget. rewrite Hhidden in Hget. cbn [negb] in Hget.
  assert (px_onClientAccessError px
          = default (defaultClientAccessError w) (onClientAccessError options)) as Hpol
    by reflexivity.
  rewrite Hpol in Hget.
  split.
  - rewrite Hget.
    destruct (default (defaultClientAccessError w) (onClientAccessError options)); try done.
    by destruct (isDevelopment w').
  - intros Hdef. unfold Proxy_get. rewrite Hget.
    destruct (default (defaultClientAccessError w) (onClientAccessError options));
      [done | destruct (isDevelopment w') |]; simpl; intros [= <-]; done.
Qed.

(** A key under a server-only prefix, resolved from an injected source in a
    browser and read there: the read gives [undefined]. *)
Lemma hidden_key_on_front_end_witness :
  exposed_key server_only_prefix "SERVER_X" exposed_string = false
  /\ Proxy_get (hydrated_browser [("SERVER_X", VStr "v")])
       (returned_env (hydrated_browser [("SERVER_X", VStr "v")])
          [("SERVER_X", Schema exposed_string)] server_only_prefix)
       (PStr "SERVER_X")
     <> Return (VStr "v").
Proof.
  split; [reflexivity |].
  assert (NoDup (map fst [("SERVER_X", Schema exposed_string)])) as Hnd by by_evaluation.
  assert ("SERVER_X" ∉ accessorProps) as Hacc by by_evaluation.
  assert (PStr "SERVER_X" ∉ inspectables) as Hinsp by by_evaluation.
  exact (proj2 (hidden_key_on_front_end
                  (hydrated_browser [("SERVER_X", VStr "v")])
                  (hydrated_browser [("SERVER_X", VStr "v")])
                  [("SERVER_X", Schema exposed_string)] server_only_prefix
                  "SERVER_X" exposed_string (VStr "v") Hnd (list_elem_of_here _ _)
                  eq_refl Hacc Hinsp eq_refl eq_refl) eq_refl).
Defined.

(** A key resolved with [v] and exposed to the front-end reads there as
    follows.  The value is [v] when the source has the key or the validator
    has no client configuration; otherwise the client [devDefault] if it is
    defined and the read happens in development, else the client [default]
    if it is defined, else [v].  A configured transform is applied to that
    value, once, unless the value is [undefined]. *)
Theorem exposed_key_on_front_end (w w' : World) (specs : ZenvSpec) (options : ZenvOptions)
    (key : string) (s : Validator) (v : value) :
  NoDup (map fst specs) -> (key, Schema s) ∈ specs ->
  key_outcome w (default (Runtime.env w) (opt_env options)) options (key, Schema s)
    = KeyResolved v ->
  key ∉ accessorProps -> PStr key ∉ inspectables ->
  exposed_key options key s = true ->
  isClient w' = true ->
  let px := returned_env w specs options in
  let value :=
    client_side_value w' (default (Runtime.env w) (opt_env options)) key (client_of s) v in
  trap_get w' px (PStr key) =
    match is_defined value, client_of s ≫= transform with
    | true, Some f => (Return (f value), [EvTransform key value])
    | _, _ => (Return value, [])
    end.
Proof.
  intros Hnd Hin Hout Hacc Hinsp Hexposed Hclient px value.
  destruct (front_end_read w w' specs options key s v Hnd Hin Hout Hacc Hinsp Hclient)
    as [Hown Hget].
  fold px in Hown, Hget. rewrite Hexposed in Hget. cbn [negb] in Hget.
  destruct (validated_key_metadata w (default (Runtime.env w) (opt_env options)) options
              specs key s Hnd Hin (resolved_not_skipped _ _ _ _ _ _ Hout))
    as (m & Hm & Hso & _ & Hc).
  assert (server_only_key options key = false) as Hns.
  { unfold exposed_key in Hexposed. by destruct (server_only_key options key). }
  rewrite Hns in Hc.
  assert (px_metadata px !! key ≫= client = client_of s) as Hcfg.
  { unfold px, returned_env. cbn [px_metadata createProtectiveProxy]. rewrite Hm. simpl.
    rewrite Hc. by destruct (client_of s). }
  assert (client_value w' px (PStr key) = value) as Hvalue.
  { unfold client_value. cbn [String_of has_property get_property]. rewrite Hown, Hcfg.
    rewrite bool_decide_eq_true_2 by eauto.
    unfold value, client_side_value, px, returned_env. cbn [px_rawEnv createProtectiveProxy pd_value].
    destruct (plain_in _ key), (client_of s); done. }
  rewrite Hget. cbv zeta. rewrite Hvalue, Hcfg.
  by destruct (is_defined value), (client_of s ≫= transform).
Qed.

(** [API_HOST], injected into the page and exposed with a transform: the
    read gives the transformed value. *)
Lemma exposed_key_on_front_end_witness :
  exposed_key no_options "API_HOST" api_host = true
  /\ trap_get (hydrated_browser [("API_HOST", VStr "api.example.com")])
       (returned_env (hydrated_browser [("API_HOST", VStr "api.example.com")])
          [("API_HOST", Schema api_host)] no_options)
       (PStr "API_HOST")
     = (Return (VStr "https://api.example.com"),
        [EvTransform "API_HOST" (VStr "api.example.com")]).
Proof.
  split; [reflexivity |].
  assert (NoDup (map fst [("API_HOST", Schema api_host)])) as Hnd by by_evaluation.
  assert ("API_HOST" ∉ accessorProps) as Hacc by by_evaluation.
  assert (PStr "API_HOST" ∉ inspectables) as Hinsp by by_evaluation.
  exact (exposed_key_on_front_end
           (hydrated_browser [("API_HOST", VStr "api.example.com")])
           (hydrated_browser [("API_HOST", VStr "api.example.com")])
           [("API_HOST", Schema api_host)] no_options
           "API_HOST" api_host (VStr "api.example.com") Hnd (list_elem_of_here _ _)
           eq_refl Hacc Hinsp eq_refl eq_refl).
Defined.

(** ** Keys outside the spec *)




(** ** Enumeration *)

Lemma own_lookup_app (a b : JsObj) (k : string) :
  own_lookup (a ++ b) k =
  match own_lookup a k with
  | Some d => Some d
  | None => own_lookup b k
  end.
Proof.
  induction a as [|[k' d] a IH]; simpl; [done |].
  by destruct (String.eqb k' k).
Qed.

Lemma own_lookup_None (o : JsObj) (k : string) :
  own_lookup o k = None <-> k ∉ map fst o.
Proof.
  induction o as [|[k' d] o IH]; simpl.
  - split; [intros _; apply not_elem_of_nil | done].
  - destruct (String.eqb k' k) eqn:E.
    + apply String.eqb_eq in E as ->. split; [done |]. intros Hk. destruct Hk. by left.
    + apply String.eqb_neq in E. rewrite IH, not_elem_of_cons.
      split; [intros Hk; split; [by intros -> | done] | by intros [_ Hk]].
Qed.

Lemma own_lookup_Forall (P : PropDesc -> Prop) (o : JsObj) (k : string) (d : PropDesc) :
  Forall (fun kd => P (snd kd)) o -> own_lookup o k = Some d -> P d.
Proof.
  induction 1 as [|[k' d'] o Hd _ IH]; simpl; [done |].
  destruct (String.eqb k' k); [by intros [= <-] | exact IH].
Qed.

Lemma assign_fresh (o : JsObj) (k : string) (v : value) :
  own_lookup o k = None -> assign o k v = o ++ [(k, mkDesc v true true true)].
Proof.
  induction o as [|[k' d] o IH]; simpl; [done |].
  destruct (String.eqb k' k); [done |]. intros H. by rewrite IH.
Qed.

Lemma defineProperty_fresh (o : JsObj) (k : string) (i : DescInit) :
  own_lookup o k = None ->
  defineProperty o k i
  = o ++ [(k, mkDesc (di_value i) (default false (di_enumerable i))
                (default false (di_writable i)) (default false (di_configurable i)))].
Proof.
  induction o as [|[k' d] o IH]; simpl; [done |].
  destruct (String.eqb k' k); [done |]. intros H. by rewrite IH.
Qed.

Lemma resolved_pairs_cons (w : World) (env : PlainObj) (options : ZenvOptions)
    (entry : string * SpecEntry) (specs : ZenvSpec) :
  resolved_pairs w env options (entry :: specs) =
  match key_outcome w env options entry with
  | KeyResolved v => (fst entry, v) :: resolved_pairs w env options specs
  | _ => resolved_pairs w env options specs
  end.
Proof. unfold resolved_pairs. simpl. by destruct (key_outcome w env options entry). Qed.

(** The resolver stores the resolved pairs, in the order of the spec. *)
Lemma run_result_list (w : World) (env : PlainObj) (options : ZenvOptions)
    (specs : ZenvSpec) (st : Resolution) :
  NoDup (map fst specs) ->
  (forall k, k ∈ map fst specs -> own_lookup (result st) k = None) ->
  result (fold_left (validateSpecs_step w env options) specs st)
  = result st ++ map (fun kv => (fst kv, mkDesc (snd kv) true true true))
                     (resolved_pairs w env options specs).
Proof.
  revert st. induction specs as [|[key entry] specs IH]; intros st Hnd Hfresh.
  - simpl. by rewrite app_nil_r.
  - simpl in Hnd. apply NoDup_cons in Hnd as [Hkey Hnd].
    cbn [fold_left]. rewrite IH; [| done |].
    + rewrite step_result, resolved_pairs_cons.
      destruct (key_outcome w env options (key, entry)) as [|v|e]; [done | | done].
      cbn [fst]. rewrite assign_fresh by (apply Hfresh; simpl; by left).
      by rewrite <- app_assoc.
    + intros k Hk. rewrite step_result.
      assert (own_lookup (result st) k = None) as Hnone by (apply Hfresh; simpl; by right).
      destruct (key_outcome w env options (key, entry)) as [|v|e]; try done.
      cbn [fst]. rewrite own_lookup_assign_ne; [done |]. by intros ->.
Qed.

Lemma resolved_pairs_keys (w : World) (env : PlainObj) (options : ZenvOptions)
    (specs : ZenvSpec) (k : string) :
  k ∈ map fst (resolved_pairs w env options specs) -> k ∈ map fst specs.
Proof.
  induction specs as [|[key entry] specs IH]; [done |].
  rewrite resolved_pairs_cons. simpl.
  destruct (key_outcome w env options (key, entry)); simpl; try (intros H; right; by apply IH).
  intros [-> | H]%elem_of_cons; [by left | right; by apply IH].
Qed.

Lemma enumerable_filter_all (o rest : JsObj) :
  Forall (fun kd => pd_enumerable (snd kd) = true) o ->
  filter (fun k => default false (pd_enumerable <$> own_lookup (o ++ rest) k) = true)
         (map fst o)
  = map fst o.
Proof.
  intros Hen.
  assert (forall k, k ∈ map fst o ->
            default false (pd_enumerable <$> own_lookup (o ++ rest) k) = true) as Hall.
  { intros k Hk. rewrite own_lookup_app.
    destruct (own_lookup o k) as [d|] eqn:E.
    - simpl. by apply (own_lookup_Forall (fun d => pd_enumerable d = true) o k d).
    - by apply own_lookup_None in E. }
  induction (map fst o) as [|k ks IH]; [done |].
  rewrite filter_cons_True by (apply Hall; by left).
  f_equal. apply IH. intros k' Hk'. apply Hall. by right.
Qed.

Lemma enumerable_filter_none (o rest : JsObj) :
  Forall (fun kd => pd_enumerable (snd kd) = false) rest ->
  (forall k, k ∈ map fst rest -> k ∉ map fst o) ->
  filter (fun k => default false (pd_enumerable <$> own_lookup (o ++ rest) k) = true)
         (map fst rest)
  = [].
Proof.
  intros Hen Hdisj.
  assert (forall k, k ∈ map fst rest ->
            default false (pd_enumerable <$> own_lookup (o ++ rest) k) <> true) as Hall.
  { intros k Hk. rewrite own_lookup_app.
    rewrite (proj2 (own_lookup_None o k) (Hdisj k Hk)).
    destruct (own_lookup rest k) as [d|] eqn:E; simpl; [| done].
    by rewrite (own_lookup_Forall (fun d => pd_enumerable d = false) rest k d). }
  clear Hdisj. induction (map fst rest) as [|k ks IH]; [done |].
  rewrite filter_cons_False by (apply Hall; by left).
  apply IH. intros k' Hk'. apply Hall. by right.
Qed.

(** The target of a returned environment, when no key of the spec is an
    accessor name or the name of the prefix field: the resolved pairs in the
    order of the spec, then the five accessors, then the prefix field if the
    option was given. *)
Lemma returned_target (w : World) (specs : ZenvSpec) (options : ZenvOptions) :
  NoDup (map fst specs) ->
  (forall k, k ∈ map fst specs -> (k ∉ accessorProps) /\ k <> "__clientSafePrefixes__") ->
  let env := default (Runtime.env w) (opt_env options) in
  exists hidden : JsObj,
    target (returned_env w specs options)
    = map (fun kv => (fst kv, mkDesc (snd kv) true true true))
          (resolved_pairs w env options specs) ++ hidden
    /\ map fst hidden
       = accessorProps ++ match clientSafePrefixes options with
                          | Some _ => ["__clientSafePrefixes__"]
                          | None => []
                          end
    /\ Forall (fun kd => pd_enumerable (snd kd) = false) hidden.
Proof.
  intros Hnd Hkeys env.
  set (pairs := map (fun kv => (fst kv, mkDesc (snd kv) true true true))
                    (resolved_pairs w env options specs)).
  assert (result (validateSpecs w specs env options) = pairs) as Hres.
  { unfold validateSpecs. by rewrite run_result_list. }
  assert (forall k, (k ∈ accessorProps \/ k = "__clientSafePrefixes__") ->
            k ∉ map fst pairs) as Hfresh.
  { intros k Hk Hin. unfold pairs in Hin. rewrite map_map in Hin. simpl in Hin.
    apply resolved_pairs_keys in Hin. destruct (Hkeys k Hin) as [Ha Hp].
    by destruct Hk. }
  unfold returned_env. cbn [target createProtectiveProxy]. fold env. rewrite Hres.
  unfold addEnvAccessors, defineProperties. cbn [fold_left fst snd].
  set (mode := accessor_nodeEnv w pairs env).
  rewrite (defineProperty_fresh pairs "isDevelopment")
    by (apply own_lookup_None, Hfresh; left; by_evaluation).
  rewrite (defineProperty_fresh _ "isDev")
    by (rewrite own_lookup_app, (proj2 (own_lookup_None pairs "isDev"));
        [done | apply Hfresh; left; by_evaluation]).
  rewrite <- !app_assoc.
  rewrite (defineProperty_fresh _ "isProduction")
    by (rewrite own_lookup_app, (proj2 (own_lookup_None pairs "isProduction"));
        [done | apply Hfresh; left; by_evaluation]).
  rewrite <- !app_assoc.
  rewrite (defineProperty_fresh _ "isProd")
    by (rewrite own_lookup_app, (proj2 (own_lookup_None pairs "isProd"));
        [done | apply Hfresh; left; by_evaluation]).
  rewrite <- !app_assoc.
  rewrite (defineProperty_fresh _ "isTest")
    by (rewrite own_lookup_app, (proj2 (own_lookup_None pairs "isTest"));
        [done | apply Hfresh; left; by_evaluation]).
  rewrite <- !app_assoc.
  unfold attachClientSafePrefixes.
  destruct (clientSafePrefixes options) as [prefixes|].
  - rewrite (defineProperty_fresh _ "__clientSafePrefixes__")
      by (rewrite own_lookup_app, (proj2 (own_lookup_None pairs "__clientSafePrefixes__"));
          [done | apply Hfresh; by right]).
    rewrite <- !app_assoc.
    eexists. split; [reflexivity |]. split; [reflexivity |].
    repeat constructor.
  - eexists. split; [reflexivity |]. split; [reflexivity |].
    repeat constructor.
Qed.

(** When no key of the spec is an accessor name or the name of the prefix
    field, [Object.keys] of the returned environment lists exactly the keys
    that resolved, in the order of the spec: no failed or skipped key, no
    accessor, no prefix field.  The [ownKeys] trap itself answers with those
    keys followed by the five accessor names and, if the option was given,
    the prefix field. *)
Theorem enumeration_in_spec_order (w : World) (specs : ZenvSpec) (options : ZenvOptions) :
  NoDup (map fst specs) ->
  (forall k, k ∈ map fst specs -> (k ∉ accessorProps) /\ k <> "__clientSafePrefixes__") ->
  let env := default (Runtime.env w) (opt_env options) in
  let px := returned_env w specs options in
  Proxy_keys px = map fst (resolved_pairs w env options specs)
  /\ trap_ownKeys px
     = map fst (resolved_pairs w env options specs)
       ++ accessorProps
       ++ match clientSafePrefixes options with
          | Some _ => ["__clientSafePrefixes__"]
          | None => []
          end.
Proof.
  intros Hnd Hkeys env px.
  destruct (returned_target w specs options Hnd Hkeys) as (hidden & Htarget & Hnames & Hhidden).
  fold env px in Htarget.
  set (pairs := map (fun kv => (fst kv, mkDesc (snd kv) true true true))
                    (resolved_pairs w env options specs)) in *.
  assert (map fst pairs = map fst (resolved_pairs w env options specs)) as Hpairs.
  { unfold pairs. by rewrite map_map. }
  split.
  - unfold Proxy_keys, trap_ownKeys, trap_getOwnPropertyDescriptor, ownKeys.
    cbn [getOwnPropertyDescriptor]. rewrite Htarget, map_app, filter_app.
    rewrite enumerable_filter_all, enumerable_filter_none, app_nil_r; [done | done | |].
    + intros k Hk Hin. rewrite Hpairs in Hin. apply resolved_pairs_keys in Hin.
      destruct (Hkeys k Hin) as [Ha Hp]. rewrite Hnames in Hk.
      apply elem_of_app in Hk as [Hk | Hk]; [done |].
      destruct (clientSafePrefixes options); [| by apply elem_of_nil in Hk].
      by apply list_elem_of_singleton in Hk.
    + unfold pairs. apply Forall_forall. intros kd Hkd.
      apply list_elem_of_In, in_map_iff in Hkd as (kv & <- & _). done.
  - unfold trap_ownKeys, ownKeys. by rewrite Htarget, map_app, Hpairs, Hnames.
Qed.

(** The three keys with [HOST] alone in the source, under the return
    policy: [HOST] is the one key enumerated. *)
Lemma enumeration_in_spec_order_witness :
  NoDup (map fst three_keys)
  /\ Proxy_keys (returned_env (backend_world [("HOST", VStr "h")]) three_keys
                   (only_onError OnErrorReturn))
     = ["HOST"].
Proof.
  assert (NoDup (map fst three_keys)) as Hnd by by_evaluation.
  assert (forall k, k ∈ map fst three_keys ->
            (k ∉ accessorProps) /\ k <> "__clientSafePrefixes__") as Hkeys.
  { intros k Hk. simpl in Hk.
    repeat (apply elem_of_cons in Hk as [-> | Hk]); [.. | by apply elem_of_nil in Hk];
      (split; [by_evaluation | done]). }
  split; [exact Hnd |].
  exact (proj1 (enumeration_in_spec_order (backend_world [("HOST", VStr "h")]) three_keys
                  (only_onError OnErrorReturn) Hnd Hkeys)).
Defined.

(** ** Outcomes of the entry point *)




(** The entry point ends the process only where a [process] exists, only
    under the exit policy (asked for, or by default), only after at least one
    failure, and with status 1; with the default reporter the exit notice is
    then the last thing printed. *)
Theorem process_exit_only_on_node (w : World) (specs : ZenvSpec) (options : ZenvOptions)
    (status : Z) (evs : list Event) :
  zenv w specs options = (ZenvExit status, evs) ->
  let env := default (Runtime.env w) (opt_env options) in
  status = 1
  /\ isNode w = true
  /\ default (defaultErrorBehavior w) (onError options) = OnErrorExit
  /\ errors (validateSpecs w specs env options) <> []
  /\ (reporter options = None ->
      exists evs', evs = evs' ++ [EvConsoleError (newline +:+ " Exiting with error code 1")]).
Proof.
  intros Hz env. unfold zenv in Hz. fold env in Hz.
  destruct (errors (validateSpecs w specs env options)) as [|e es] eqn:Herr; [done |].
  cbn [length Nat.ltb Nat.leb] in Hz.
  destruct (default (defaultErrorBehavior w) (onError options)) eqn:Hpol; [done | | done].
  destruct (isNode w) eqn:Hnode; [| done].
  injection Hz as <- <-.
  repeat split; [done |].
  intros ->. unfold reportErrors. rewrite Hnode.
  eexists (_ ++ [_]). rewrite <- app_assoc. reflexivity.
Qed.

(** Three keys that cannot resolve, on a backend, with no option. *)
Lemma process_exit_only_on_node_witness :
  fst (zenv (backend_world []) three_keys no_options) = ZenvExit 1
  /\ isNode (backend_world []) = true.
Proof.
  split; [reflexivity |].
  exact (proj1 (proj2 (process_exit_only_on_node (backend_world []) three_keys no_options 1
                         (snd (zenv (backend_world []) three_keys no_options)) eq_refl))).
Defined.

(** Under the exit policy where no [process] exists, failures do not stop
    anything: the entry point reports them and returns the environment with
    the keys that resolved.  The default report is then one message, without
    the exit notice. *)
Theorem exit_policy_outside_node (w : World) (specs : ZenvSpec) (options : ZenvOptions) :
  onError options = Some OnErrorExit -> isNode w = false ->
  let env := default (Runtime.env w) (opt_env options) in
  fst (zenv w specs options) = ZenvReturn (returned_env w specs options)
  /\ (reporter options = None ->
      errors (validateSpecs w specs env options) <> [] ->
      exists output,
        snd (zenv w specs options)
        = flat_map (reads_of w env options) specs ++ [EvConsoleError output]).
Proof.
  intros Hpol Hnode env. unfold zenv, returned_env. fold env.
  rewrite Hpol, Hnode. cbn [default].
  assert (events (validateSpecs w specs env options)
          = flat_map (reads_of w env options) specs) as Hev.
  { unfold validateSpecs. by rewrite run_events. }
  destruct (errors (validateSpecs w specs env options)) as [|e es] eqn:Herr.
  - split; [done |]. by intros _ [].
  - cbn [length Nat.ltb Nat.leb fst snd]. split; [done |].
    intros -> _. unfold reportErrors. rewrite Hnode, Hev. eauto.
Qed.

(** Three keys that cannot resolve, in a browser, under the exit policy. *)
Lemma exit_policy_outside_node_witness :
  onError (only_onError OnErrorExit) = Some OnErrorExit
  /\ isNode browser_world = false
  /\ fst (zenv browser_world [("PORT", NotSchema)] (only_onError OnErrorExit))
     = ZenvReturn (returned_env browser_world [("PORT", NotSchema)] (only_onError OnErrorExit)).
Proof.
  split; [reflexivity | split; [reflexivity |]].
  exact (proj1 (exit_policy_outside_node browser_world [("PORT", NotSchema)]
                  (only_onError OnErrorExit) eq_refl eq_refl)).
Defined.

(** ** The default report *)

Lemma prefix_app (p a b : string) :
  String.prefix p a = true -> String.prefix p (a +:+ b) = true.
Proof.
  revert a. induction p as [|c p IH]; intros a; [by destruct (a +:+ b) |].
  destruct a as [|c' a]; simpl; [done |].
  destruct (ascii_dec c c'); [apply IH | done].
Qed.

Lemma includes_app_l (hay b needle : string) :
  includes hay needle = true -> includes (hay +:+ b) needle = true.
Proof.
  induction hay as [|c hay IH].
  - rewrite includes_unfold, orb_false_r. destruct needle; [| done]. intros _.
    change ("" +:+ b) with b. rewrite includes_unfold. by destruct b.
  - rewrite includes_unfold. change (String c hay +:+ b) with (String c (hay +:+ b)).
    rewrite (includes_unfold (String c (hay +:+ b))).
    intros [Hp | Hi]%orb_prop.
    + pose proof (prefix_app _ (String c hay) b Hp) as Hp'.
      change (String c hay +:+ b) with (String c (hay +:+ b)) in Hp'. by rewrite Hp'.
    + rewrite (IH Hi). apply orb_true_r.
Qed.

Lemma includes_app_r (a hay needle : string) :
  includes hay needle = true -> includes (a +:+ hay) needle = true.
Proof.
  intros Hi. induction a as [|c a IH]; [done |].
  change (String c a +:+ hay) with (String c (a +:+ hay)).
  rewrite includes_unfold, IH. apply orb_true_r.
Qed.

Lemma includes_join (sep : string) (l : list string) (x : string) :
  x ∈ l -> includes (join sep l) x = true.
Proof.
  destruct l as [|x0 xs]; [by intros ?%elem_of_nil |]. unfold join.
  assert (forall acc, includes acc x = true \/ x ∈ xs ->
            includes (fold_left (fun acc y => acc +:+ sep +:+ y) xs acc) x = true) as Hfold.
  { induction xs as [|y ys IH]; intros acc Hx; simpl.
    - destruct Hx as [Hx | Hx]; [done | by apply elem_of_nil in Hx].
    - apply IH. destruct Hx as [Hx | [-> | Hx]%elem_of_cons].
      + left. by apply includes_app_l.
      + left. apply includes_app_r, includes_append.
      + by right. }
  intros [-> | Hx]%elem_of_cons; apply Hfold.
  - left. by rewrite includes_unfold, prefix_refl.
  - by right.
Qed.

(** The default report is one message that contains the line of every
    issue of every failure, under the heading of its kind: a missing value
    ([invalid_type] with [undefined] received) under "Missing", anything else
    under "Invalid".  The exit notice follows only under the exit policy where
    a [process] exists. *)
Theorem every_issue_is_reported (w : World) (errors : list ZodError) (onError : ErrorBehavior)
    (e : ZodError) (issue : ZodIssue) :
  e ∈ errors -> issue ∈ issues e ->
  exists output,
    reportErrors w errors onError
    = EvConsoleError output ::
      match onError with
      | OnErrorExit =>
          if isNode w then [EvConsoleError (newline +:+ " Exiting with error code 1")] else []
      | _ => []
      end
    /\ includes output (report_line issue) = true
    /\ includes output (if isMissing issue then " Missing environment variables:"
                        else " Invalid environment variables:") = true.
Proof.
  intros He Hissue. eexists. split; [reflexivity |].
  assert (issue ∈ flat_map issues errors) as Hall.
  { apply list_elem_of_In, in_flat_map. exists e. split; by apply list_elem_of_In. }
  set (all := flat_map issues errors) in *.
  set (missing := map report_line (List.filter isMissing all)).
  set (invalid := map report_line (List.filter (fun i => negb (isMissing i)) all)).
  assert (forall x,
            x ∈ (if (0 <? length invalid)%nat
                 then " Invalid environment variables:" :: invalid else [])
            \/ x ∈ (if (0 <? length missing)%nat
                    then " Missing environment variables:" :: missing else []) ->
            includes
              (join newline
                 (["================================"]
                  ++ (if (0 <? length invalid)%nat
                      then " Invalid environment variables:" :: invalid else [])
                  ++ (if (0 <? length missing)%nat
                      then " Missing environment variables:" :: missing else [])
                  ++ ["================================"])) x = true) as Hin.
  { intros x Hx. apply includes_join.
    apply elem_of_app. right. apply elem_of_app.
    destruct Hx as [Hx | Hx]; [by left | right]. apply elem_of_app. by left. }
  destruct (isMissing issue) eqn:Hm.
  - assert (report_line issue ∈ missing) as Hline.
    { unfold missing. apply list_elem_of_In, in_map, filter_In.
      split; [by apply list_elem_of_In | done]. }
    assert ((0 <? length missing)%nat = true) as Hlen.
    { destruct missing; [by apply elem_of_nil in Hline | done]. }
    split; apply Hin; right; rewrite Hlen; [by right | by left].
  - assert (report_line issue ∈ invalid) as Hline.
    { unfold invalid. apply list_elem_of_In, in_map, filter_In.
      split; [by apply list_elem_of_In | by rewrite Hm]. }
    assert ((0 <? length invalid)%nat = true) as Hlen.
    { destruct invalid; [by apply elem_of_nil in Hline | done]. }
    split; apply Hin; left; rewrite Hlen; [by right | by left].
Qed.

(** The report for one missing [API_KEY]. *)
Lemma every_issue_is_reported_witness :
  missing_issue ∈ issues (mkZodError [missing_issue])
  /\ exists output,
       reportErrors production_world [mkZodError [missing_issue]] OnErrorThrow
       = [EvConsoleError output]
       /\ includes output (report_line missing_issue) = true
       /\ includes output " Missing environment variables:" = true.
Proof.
  assert (mkZodError [missing_issue] ∈ [mkZodError [missing_issue]]) as He
    by apply list_elem_of_here.
  assert (missing_issue ∈ issues (mkZodError [missing_issue])) as Hissue
    by apply list_elem_of_here.
  split; [exact Hissue |].
  exact (every_issue_is_reported production_world [mkZodError [missing_issue]] OnErrorThrow
           (mkZodError [missing_issue]) missing_issue He Hissue).
Defined.

(** ** The failure records *)

(** Every issue the resolver records carries the key of its entry at the
    head of its path: an issue of the validator keeps its own path behind the
    key, and a failure that is not a validation error gets the path [[key]].
    The key is a key of the spec, and the failure is the one its entry
    yields. *)
Theorem failure_paths_start_with_the_key (w : World) (specs : ZenvSpec) (env : PlainObj)
    (options : ZenvOptions) (e : ZodError) (issue : ZodIssue) :
  e ∈ errors (validateSpecs w specs env options) -> issue ∈ issues e ->
  exists key entry tail,
    (key, entry) ∈ specs
    /\ key_outcome w env options (key, entry) = KeyFailed e
    /\ path issue = key :: tail.
Proof.
  unfold validateSpecs. rewrite run_errors. simpl.
  intros [[key entry] [Hin He]]%list_elem_of_In%in_flat_map Hissue.
  apply list_elem_of_In in Hin. unfold failures_of in He.
  destruct (key_outcome w env options (key, entry)) as [| |e'] eqn:Hout; try done.
  destruct He as [<- | []].
  exists key, entry.
  assert (exists tail, path issue = key :: tail) as [tail Htail]; [| by eauto].
  unfold key_outcome in Hout. simpl in Hout. destruct entry as [|s].
  - injection Hout as <-. apply list_elem_of_singleton in Hissue as ->. by eexists.
  - destruct (shouldSkip w options key s); [done |].
    destruct (parse s w (plain_get env key)) as [v|[ze|t]]; [done | |];
      injection Hout as <-; simpl in Hissue.
    + apply list_elem_of_In, in_map_iff in Hissue as (i & <- & _). simpl.
      destruct (length (path i) =? 0)%nat; by eexists.
    + apply list_elem_of_singleton in Hissue as ->. by eexists.
Qed.

(** The missing [API_KEY] of the three keys. *)
Lemma failure_paths_start_with_the_key_witness :
  failure_record "API_KEY" (CaughtZod (mkZodError [missing_issue]))
    ∈ errors (validateSpecs (backend_world []) three_keys [] no_options)
  /\ exists key entry tail,
       (key, entry) ∈ three_keys
       /\ key_outcome (backend_world []) [] no_options (key, entry)
          = KeyFailed (failure_record "API_KEY" (CaughtZod (mkZodError [missing_issue])))
       /\ path (mkIssue "invalid_type" "Invalid input: expected string, received undefined"
                  ["API_KEY"] (Some "undefined")) = key :: tail.
Proof.
  assert (failure_record "API_KEY" (CaughtZod (mkZodError [missing_issue]))
            ∈ errors (validateSpecs (backend_world []) three_keys [] no_options)) as He
    by apply list_elem_of_here.
  split; [exact He |].
  exact (failure_paths_start_with_the_key (backend_world []) three_keys [] no_options _ _ He
           (list_elem_of_here _ _)).
Defined.

(** ** Prefixes *)

Lemma prefix_iff (p s : string) :
  String.prefix p s = true <-> exists tail, s = p +:+ tail.
Proof.
  revert s. induction p as [|c p IH]; intros s.
  - split; [intros _; by exists s | intros _; by destruct s].
  - destruct s as [|c' s]; simpl.
    + split; [done | by intros [tail ?]].
    + destruct (ascii_dec c c') as [-> | Hne].
      * rewrite IH. split; intros [tail Htail]; exists tail.
        -- by rewrite Htail.
        -- by injection Htail.
      * split; [done |]. intros [tail Htail]. injection Htail as ? _. by destruct Hne.
Qed.

(** [startsWithAny str prefixes] holds exactly when [str] is one of the
    prefixes followed by something (possibly nothing).  So no string starts
    with any of an empty list, and a list that contains the empty string is
    matched by every string. *)
Theorem startsWithAny_spec (str : string) (prefixes : list string) :
  (startsWithAny str prefixes = true
   <-> exists p tail, p ∈ prefixes /\ str = p +:+ tail)
  /\ startsWithAny str [] = false
  /\ ("" ∈ prefixes -> startsWithAny str prefixes = true).
Proof.
  assert (startsWithAny str prefixes = true
          <-> exists p tail, p ∈ prefixes /\ str = p +:+ tail) as Hiff.
  { unfold startsWithAny. rewrite existsb_exists. split.
    - intros (p & Hp & [tail Htail]%prefix_iff). exists p, tail.
      split; [by apply list_elem_of_In | done].
    - intros (p & tail & Hp & Htail). exists p.
      split; [by apply list_elem_of_In | apply prefix_iff; by exists tail]. }
  split; [exact Hiff | split; [done |]].
  intros Hempty. apply Hiff. by exists "", str.
Qed.

(** ** The runtime getters *)

(** The three mode getters are mutually exclusive; without a [process], or
    without a string in [process.env.NODE_ENV], the mode is "production", so
    that in a browser with no [process] the default error policy is to throw
    and the default access policy is to ignore.  [isServer] excludes
    [isClient] and implies [isNode]. *)
Theorem runtime_modes (w : World) :
  isDevelopment w && isProduction w = false
  /\ isDevelopment w && isTest w = false
  /\ isProduction w && isTest w = false
  /\ ((forall s, process w ≫= (fun e => plain_lookup e "NODE_ENV") <> Some (VStr s)) ->
      isProduction w = true /\ defaultClientAccessError w = AccessIgnore)
  /\ (process w = None -> defaultErrorBehavior w = OnErrorThrow)
  /\ (isServer w = true -> isClient w = false /\ isNode w = true).
Proof.
  unfold isDevelopment, isProduction, isTest.
  split; [| split; [| split; [| split; [| split]]]].
  - destruct (String.eqb_spec (nodeEnv w) "development") as [-> |]; done.
  - destruct (String.eqb_spec (nodeEnv w) "development") as [-> |]; done.
  - destruct (String.eqb_spec (nodeEnv w) "production") as [-> |]; done.
  - intros Hno.
    assert (nodeEnv w = "production") as Hmode.
    { unfold nodeEnv, plain_get. destruct (process w) as [e|]; [| done]. simpl in Hno.
      destruct (plain_lookup e "NODE_ENV") as [[| | | |s|]|]; try done.
      by destruct (Hno s). }
    unfold defaultClientAccessError, isDevelopment. by rewrite Hmode.
  - intros Hp. unfold defaultErrorBehavior, isNode. rewrite Hp.
    by rewrite bool_decide_eq_false_2 by (by intros [? ?]).
  - unfold isServer, isClient, isNode.
    intros [Hw%bool_decide_eq_true_1 Hp]%andb_prop. rewrite Hw.
    split; [| done]. by rewrite bool_decide_eq_false_2 by (by intros [? ?]).
Qed.

(** A front-end read logs a warning only when the read happens in
    development: where there is no [process], or no "development" in
    [process.env.NODE_ENV], no read of any property of any environment warns,
    whatever the access policy. *)
Theorem no_warning_outside_development (w' : World) (px : Proxy) (prop : PropKey)
    (msg : string) :
  isDevelopment w' = false -> EvConsoleWarn msg ∉ snd (trap_get w' px prop).
Proof.
  intros Hdev. unfold trap_get. rewrite Hdev.
  repeat case_match; simpl; try apply not_elem_of_nil;
    by intros ?%list_elem_of_singleton.
Qed.

(** A hidden key read in a browser with no [process], under the warning
    policy. *)
Lemma no_warning_outside_development_witness :
  isDevelopment browser_world = false
  /\ (hidden_key_warning "API_HOST"
      ∉ snd (trap_get browser_world
               (mkProxy (target api_host_proxy) ∅ true AccessWarn []) (PStr "API_HOST"))).
Proof.
  split; [reflexivity |].
  exact (no_warning_outside_development browser_world
           (mkProxy (target api_host_proxy) ∅ true AccessWarn []) (PStr "API_HOST") _ eq_refl).
Defined.

(** ** More on the bootstrap script *)

Lemma escape_from_without_tag (fuel : nat) (s : string) :
  has_close_tag s = false -> escape_close_tags_from fuel s = s.
Proof.
  revert s. induction fuel as [|fuel IH]; intros s Hs; [done |].
  destruct s as [|c s]; [done |].
  rewrite has_close_tag_unfold in Hs. apply orb_false_elim in Hs as [Hp Hs].
  cbn [escape_close_tags_from]. rewrite Hp. by rewrite IH.
Qed.

(** The replacement leaves a string without a closing script tag as it is,
    and applying it twice is the same as applying it once. *)
Theorem escape_close_tags_stable (s : string) :
  (has_close_tag s = false -> escape_close_tags s = s)
  /\ escape_close_tags (escape_close_tags s) = escape_close_tags s.
Proof.
  split.
  - apply escape_from_without_tag.
  - apply escape_from_without_tag, escape_no_close_tag.
Qed.

Lemma plain_lookup_assign_eq (o : PlainObj) (k : string) (v : value) :
  plain_lookup (plain_assign o k v) k = Some v.
Proof.
  induction o as [|[k' v'] o IH]; simpl.
  - by rewrite String.eqb_refl.
  - destruct (String.eqb k' k) eqn:E; simpl; rewrite E; done.
Qed.

Lemma plain_lookup_assign_ne (o : PlainObj) (k : string) (v : value) (k' : string) :
  k <> k' -> plain_lookup (plain_assign o k v) k' = plain_lookup o k'.
Proof.
  intros Hne. induction o as [|[k0 v0] o IH]; simpl.
  - apply String.eqb_neq in Hne. by rewrite Hne.
  - destruct (String.eqb k0 k) eqn:E; simpl.
    + apply String.eqb_eq in E as ->. apply String.eqb_neq in Hne. by rewrite Hne.
    + by rewrite IH.
Qed.

Lemma safe_pairs_lookup (env : Proxy) (prefixes keys : list string) (clientEnv : PlainObj)
    (k : string) :
  plain_lookup (safe_pairs env prefixes keys clientEnv) k =
  if bool_decide (k ∈ keys) && startsWithAny k prefixes
     && is_defined (get_property (target env) (PStr k))
  then Some (get_property (target env) (PStr k))
  else plain_lookup clientEnv k.
Proof.
  revert clientEnv. induction keys as [|key keys IH]; intros clientEnv; [done |].
  cbn [safe_pairs fold_left]. fold (startsWithAny key prefixes).
  rewrite startsWithAny_guarded.
  change (fold_left _ keys ?acc) with (safe_pairs env prefixes keys acc).
  rewrite IH. clear IH.
  set (val := fun key => get_property (target env) (PStr key)).
  change (get_property (target env) (PStr k)) with (val k).
  change (get_property (target env) (PStr key)) with (val key).
  destruct (decide (key = k)) as [-> | Hne].
  - rewrite (bool_decide_eq_true_2 (k ∈ k :: keys)) by by left.
    destruct (bool_decide (k ∈ keys)), (startsWithAny k prefixes), (is_defined (val k));
      cbn [andb]; try done.
    by rewrite plain_lookup_assign_eq.
  - assert (bool_decide (k ∈ key :: keys) = bool_decide (k ∈ keys)) as ->.
    { apply bool_decide_ext. rewrite elem_of_cons. split; [| by right].
      intros [-> | ?]; [by destruct Hne | done]. }
    destruct (bool_decide (k ∈ keys) && startsWithAny k prefixes && is_defined (val k));
      [done |].
    destruct (startsWithAny key prefixes); [| done].
    destruct (is_defined (val key)); [| done]. by rewrite plain_lookup_assign_ne.
Qed.

(** On the backend, the object the script assigns holds exactly the
    enumerable keys of the environment that start with one of the prefixes
    and whose stored value is not [undefined], each with its stored value:
    nothing else gets in, and none of those is left out. *)
Theorem script_object_content (w : World) (env : Proxy) (prefixes : list string) :
  isClient w = false ->
  exists clientEnv,
    getClientEnvScript w env (Some prefixes) = Return (script_of clientEnv)
    /\ forall k,
         plain_lookup clientEnv k =
         if bool_decide (k ∈ Proxy_keys env) && startsWithAny k prefixes
            && is_defined (get_property (target env) (PStr k))
         then Some (get_property (target env) (PStr k))
         else None.
Proof.
  intros Hback. eexists. split; [by apply getClientEnvScript_backend |].
  intros k. by rewrite safe_pairs_lookup.
Qed.

(** The bootstrap scenario: [PUBLIC_X] is in the object, [SECRET] is not. *)
Lemma script_object_content_witness :
  isClient production_world = false
  /\ exists clientEnv,
       getClientEnvScript production_world public_and_secret_env (Some ["PUBLIC_"])
       = Return (script_of clientEnv)
       /\ plain_lookup clientEnv "PUBLIC_X" = Some (VStr "v")
       /\ plain_lookup clientEnv "SECRET" = None.
Proof.
  split; [reflexivity |].
  destruct (script_object_content production_world public_and_secret_env ["PUBLIC_"] eq_refl)
    as (clientEnv & Hscript & Hcontent).
  exists clientEnv. split; [exact Hscript |].
  split; rewrite Hcontent; reflexivity.
Defined.

Lemma safe_pairs_nothing (env : Proxy) (prefixes keys : list string) (clientEnv : PlainObj) :
  (forall k, k ∈ keys -> startsWithAny k prefixes = false) ->
  safe_pairs env prefixes keys clientEnv = clientEnv.
Proof.
  revert clientEnv. induction keys as [|key keys IH]; intros clientEnv Hno; [done |].
  cbn [safe_pairs fold_left]. fold (startsWithAny key prefixes).
  rewrite (Hno key) by by left. rewrite andb_false_r.
  apply IH. intros k Hk. apply Hno. by right.
Qed.

(** When no enumerable key of the environment starts with one of the
    prefixes (in particular when the prefix list is empty), the backend script
    assigns the empty object: no value of the environment occurs in it. *)
Theorem script_without_safe_key (w : World) (env : Proxy) (prefixes : list string) :
  isClient w = false ->
  (forall k, k ∈ Proxy_keys env -> startsWithAny k prefixes = false) ->
  getClientEnvScript w env (Some prefixes) = Return "window.__ZENV_CLIENT__ = {};".
Proof.
  intros Hback Hno. rewrite getClientEnvScript_backend by done.
  by rewrite safe_pairs_nothing.
Qed.

(** The bootstrap scenario with an empty prefix list. *)
Lemma script_without_safe_key_witness :
  isClient production_world = false
  /\ getClientEnvScript production_world public_and_secret_env (Some [])
     = Return "window.__ZENV_CLIENT__ = {};".
Proof.
  split; [reflexivity |].
  exact (script_without_safe_key production_world public_and_secret_env [] eq_refl
           (fun k _ => eq_refl)).
Defined.

(** Hydration: a page that carries the object the backend script assigned
    regenerates that very script, whatever environment and prefix list the
    front-end call is given; a page that carries none gets the empty
    string. *)
Theorem hydration_consistency (w : World) (env : Proxy) (prefixes : list string) :
  isClient w = false ->
  exists clientEnv,
    getClientEnvScript w env (Some prefixes) = Return (script_of clientEnv)
    /\ (forall p env' prefixes',
          getClientEnvScript (mkWorld (Some (Some clientEnv)) p) env' prefixes'
          = getClientEnvScript w env (Some prefixes))
    /\ (forall p env' prefixes',
          getClientEnvScript (mkWorld (Some None) p) env' prefixes' = Return "").
Proof.
  intros Hback. eexists. split; [by apply getClientEnvScript_backend |].
  split; [| done].
  intros p env' prefixes'. by rewrite getClientEnvScript_backend.
Qed.

(** The bootstrap scenario, rendered on the backend and again in the
    page. *)
Lemma hydration_consistency_witness :
  isClient production_world = false
  /\ exists clientEnv,
       getClientEnvScript production_world public_and_secret_env (Some ["PUBLIC_"])
       = Return (script_of clientEnv)
       /\ getClientEnvScript (hydrated_browser clientEnv) development_env None
          = getClientEnvScript production_world public_and_secret_env (Some ["PUBLIC_"]).
Proof.
  split; [reflexivity |].
  destruct (hydration_consistency production_world public_and_secret_env ["PUBLIC_"] eq_refl)
    as (clientEnv & Hscript & Hpage & _).
  exists clientEnv. split; [exact Hscript | apply Hpage].
Defined.

(** ** The mode behind the derived booleans *)

(** The mode the five derived booleans are computed from.  With distinct
    keys: if the spec resolves [NODE_ENV] to a string, that string is the
    mode, whatever the source and the runtime say; if the spec has no
    [NODE_ENV] key, the mode is the source's [NODE_ENV] when that is a string
    (or a number, printed), and the runtime's mode otherwise.  Each accessor
    then reads, in every world, as the comparison of that mode with its
    word. *)
Theorem mode_of_the_accessors (w w' : World) (specs : ZenvSpec) (options : ZenvOptions)
    (a : string) :
  NoDup (map fst specs) -> a ∈ accessorProps ->
  let env := default (Runtime.env w) (opt_env options) in
  let px := returned_env w specs options in
  (forall entry mode,
     ("NODE_ENV", entry) ∈ specs ->
     key_outcome w env options ("NODE_ENV", entry) = KeyResolved (VStr mode) ->
     Proxy_get w' px (PStr a) = Return (VBool (String.eqb mode (accessor_word a))))
  /\ (("NODE_ENV" ∉ map fst specs) ->
      Proxy_get w' px (PStr a)
      = Return (VBool (String.eqb
                         match plain_get env "NODE_ENV" with
                         | VStr s => s
                         | VNum n => string_of_Z n
                         | _ => nodeEnv w
                         end
                         (accessor_word a)))).
Proof.
  intros Hnd Ha env px.
  set (res := result (validateSpecs w specs env options)).
  assert (Proxy_get w' px (PStr a)
          = Return (VBool (String.eqb (accessor_nodeEnv w res env) (accessor_word a))))
    as Hread.
  { destruct (accessor_lookup w options res a Ha) as (d & Hd & _ & Hv).
    unfold Proxy_get. rewrite trap_get_accessor by done.
    unfold px, returned_env. cbn [fst get_property target createProtectiveProxy].
    fold env res. fold env in Hd. rewrite Hd. by rewrite Hv. }
  split.
  - intros entry mode Hin Hout. rewrite Hread. unfold accessor_nodeEnv.
    cbn [get_property]. unfold res.
    by rewrite (run_result_at w env options specs "NODE_ENV" entry Hnd Hin), Hout.
  - intros Hno. rewrite Hread. unfold accessor_nodeEnv. cbn [get_property].
    unfold res, validateSpecs. rewrite run_result_other by done. simpl.
    by destruct (plain_get env "NODE_ENV").
Qed.

(** A spec whose [NODE_ENV] defaults to "test", on a backend whose runtime
    mode is "production": [isTest] reads [true]. *)
Lemma mode_of_the_accessors_witness :
  NoDup (map fst [("NODE_ENV", Schema node_env_test)])
  /\ isTest (backend_world []) = false
  /\ Proxy_get (backend_world [])
       (returned_env (backend_world []) [("NODE_ENV", Schema node_env_test)] no_options)
       (PStr "isTest")
     = Return (VBool true).
Proof.
  assert (NoDup (map fst [("NODE_ENV", Schema node_env_test)])) as Hnd by by_evaluation.
  assert ("isTest" ∈ accessorProps) as Ha by by_evaluation.
  split; [exact Hnd | split; [reflexivity |]].
  exact (proj1 (mode_of_the_accessors (backend_world []) (backend_world [])
                  [("NODE_ENV", Schema node_env_test)] no_options "isTest" Hnd Ha)
           (Schema node_env_test) "test" (list_elem_of_here _ _) eq_refl).
Defined.

(** ** The coercions *)

Lemma lower_idempotent (c : ascii) : lower (lower c) = lower c.
Proof. destruct c as [[] [] [] [] [] [] [] []]; reflexivity. Qed.

Lemma toLowerCase_idempotent (s : string) : toLowerCase (toLowerCase s) = toLowerCase s.
Proof. induction s as [|c s IH]; simpl; [done |]. by rewrite lower_idempotent, IH. Qed.

(** [ensureBoolean] does not look at the letter case of a string. *)
Theorem ensureBoolean_ignores_case (s : string) :
  ensureBoolean (VStr (toLowerCase s)) = ensureBoolean (VStr s).
Proof.
  unfold ensureBoolean. rewrite toLowerCase_idempotent.
  destruct (mem_string (toLowerCase s) ["true"; "1"; "yes"; "on"]); [done |].
  destruct (mem_string (toLowerCase s) ["false"; "0"; "no"; "off"]); [done |].
  by destruct s.
Qed.

Lemma ensureBoolean_digits (p : positive) :
  ensureBoolean (VStr (NilZero.string_of_uint (Pos.to_uint p))) = true.
Proof.
  pose proof (DecimalPos.Unsigned.of_to p) as Hp.
  destruct (Pos.to_uint p) as [|u|u|u|u|u|u|u|u|u|u]; try done;
    destruct u; try done.
Qed.

(** The two coercions agree: a value that [ensureString] turns into a
    string gives the same boolean whether [ensureBoolean] is applied to it or
    to that string. *)
Theorem ensureBoolean_of_ensureString (v : value) (s : string) :
  ensureString v = Return s -> ensureBoolean (VStr s) = ensureBoolean v.
Proof.
  destruct v as [| |b|n|s'|l]; simpl; try done.
  - intros [= <-]. by destruct b.
  - intros [= <-]. unfold string_of_Z. destruct n as [|p|p]; [done | |].
    + apply ensureBoolean_digits.
    + reflexivity.
  - by intros [= <-].
  - by intros [= <-].
Qed.

(** The number zero. *)
Lemma ensureBoolean_of_ensureString_witness :
  ensureString (VNum 0) = Return "0"
  /\ ensureBoolean (VStr "0") = ensureBoolean (VNum 0).
Proof.
  split; [reflexivity |].
  exact (ensureBoolean_of_ensureString (VNum 0) "0" eq_refl).
Defined.

(** ** Instances of the delete and skip lemmas *)

(** A delete of [SECRET] on the backend environment of the bootstrap
    scenario. *)
Lemma delete_of_resolved_key_witness :
  "SECRET" ∈ Proxy_keys (returned_env (backend_world public_and_secret_source)
                           public_and_secret no_options)
  /\ Proxy_delete (returned_env (backend_world public_and_secret_source) public_and_secret
                     no_options) (PStr "SECRET")
     = (Return true,
        returned_env (backend_world public_and_secret_source) public_and_secret no_options).
Proof.
  assert ("SECRET" ∈ Proxy_keys (returned_env (backend_world public_and_secret_source)
                                   public_and_secret no_options)) as Hk by by_evaluation.
  split; [exact Hk |].
  exact (delete_of_resolved_key (backend_world public_and_secret_source) public_and_secret
           no_options _ "SECRET" eq_refl Hk).
Defined.

(** A key the browser skips, read there with [strict] left on. *)
Lemma skipped_key_not_found_witness :
  shouldSkip browser_world ignore_access_errors "SECRET" required_string = true
  /\ Proxy_get browser_world
       (returned_env browser_world [("SECRET", Schema required_string)] ignore_access_errors)
       (PStr "SECRET")
     = Throw (ReferenceError "[zenv] Environment variable not found: SECRET").
Proof.
  split; [reflexivity |].
  assert (NoDup (map fst [("SECRET", Schema required_string)])) as Hnd by by_evaluation.
  assert (PStr "SECRET" ∉ inspectables) as Hinsp by by_evaluation.
  assert ("SECRET" ∉ accessorProps) as Hacc by by_evaluation.
  assert (strict ignore_access_errors <> Some false) as Hstrict by done.
  exact (skipped_key_not_found browser_world browser_world
           [("SECRET", Schema required_string)] ignore_access_errors "SECRET" required_string
           _ Hnd (list_elem_of_here _ _) eq_refl Hstrict Hinsp Hacc eq_refl).
Defined.

(** ** Guarded reads *)


